(** * EODSA WebSocket relay: a shallow embedding of [server.js]

    The relay is one [io.on('connection')] callback that registers a fixed
    set of listeners on every socket.  Each listener is straight-line
    JavaScript: it reads fields of the inbound payload, interpolates them
    into template literals, and calls [socket.join], assigns to
    [socket.data], or calls [io.to(room).emit(name, payload)].

    The embedding keeps that shape.  Payloads are JSON values; property
    reads and template-literal conversions follow ECMAScript and may throw;
    listeners are written in a small state-and-exception monad whose state
    holds the socket table, the list of emissions made through [io.to] and
    the console. *)

From stdpp Require Import gmap strings list pretty.

Open Scope string_scope.
Local Set Warnings "-register-all".

(** ** JavaScript values

    What the socket.io parser hands to a listener is the result of
    [JSON.parse]: [null], booleans, numbers, strings, arrays and plain
    objects, plus [undefined] when the client sent no argument.  Binary
    attachments and acknowledgement callbacks are outside the model.
    An object is the list of its own properties, one entry per name (were a
    name listed twice, the first entry is the one read). *)

(** A number is carried by the string [Number::toString] prints for it
    ("42", "-2.5", "1e+21", "1152921504606847000"): the listeners use a number
    only through template literals and the conditional operator, and two
    numbers print alike only when they are equal (or are the two zeros).
    Strings are held as their UTF-8 bytes. *)
Record number : Type := Number { printed : string }.

(** An integer that JavaScript holds exactly and prints in plain digits
    (a count, a small literal). *)
Definition number_of_Z (n : Z) : number := Number (pretty n).
Coercion number_of_Z : Z >-> number.

Inductive value : Type :=
| VUndefined
| VNull
| VBool (b : bool)
| VNum (x : number)
| VStr (s : string)
| VArr (elems : list value)
| VObj (props : list (string * value)).

Arguments VNum x%_Z.

Inductive exn : Type := TypeError.

Inductive result (A : Type) : Type :=
| Ok (a : A)
| Throw (e : exn).
Arguments Ok {A} a.
Arguments Throw {A} e.

Fixpoint own_prop (k : string) (props : list (string * value)) : option value :=
  match props with
  | [] => None
  | (k', v) :: rest => if String.eqb k k' then Some v else own_prop k rest
  end.

(** [data.k] for a property name [k] that no built-in prototype defines
    (every name the listeners read: eventId, judgeId, performanceId, status,
    musicCue, entryId, action, present).  Reading a property of [undefined]
    or [null] throws; primitives and arrays have no such property. *)
Definition get_prop (v : value) (k : string) : result value :=
  match v with
  | VUndefined | VNull => Throw TypeError
  | VObj props => Ok (default VUndefined (own_prop k props))
  | _ => Ok VUndefined
  end.

(** [ToString], as applied by a template literal.  A plain object goes
    through OrdinaryToPrimitive: with no own [toString] the inherited
    [Object.prototype.toString] answers ["[object Object]"]; an own
    [toString] coming from JSON is not callable, [valueOf] then returns the
    object itself (or is not callable either), and the conversion throws.
    An array is joined with commas, [undefined] and [null] elements
    printing as the empty string. *)
Fixpoint ToString (v : value) : result string :=
  match v with
  | VUndefined => Ok "undefined"
  | VNull => Ok "null"
  | VBool true => Ok "true"
  | VBool false => Ok "false"
  | VNum x => Ok (printed x)
  | VStr s => Ok s
  | VArr elems =>
      (fix join (es : list value) : result string :=
         match es with
         | [] => Ok ""
         | e :: es' =>
             let first :=
               match e with
               | VUndefined | VNull => Ok ""
               | _ => ToString e
               end in
             match first, es' with
             | Throw x, _ => Throw x
             | Ok s, [] => Ok s
             | Ok s, _ :: _ =>
                 match join es' with
                 | Ok r => Ok (s +:+ "," +:+ r)
                 | Throw x => Throw x
                 end
             end
         end) elems
  | VObj props =>
      match own_prop "toString" props with
      | Some _ => Throw TypeError
      | None => Ok "[object Object]"
      end
  end.

(** [ToBoolean], as applied by the conditional operator.  The falsy numbers
    are the zeros and NaN. *)
Definition ToBoolean (v : value) : bool :=
  match v with
  | VUndefined | VNull => false
  | VBool b => b
  | VNum x => negb (String.eqb (printed x) "0" || String.eqb (printed x) "NaN")
  | VStr s => negb (String.eqb s "")
  | VArr _ | VObj _ => true
  end.

(** ** Sockets, rooms and the server state *)

(** [socket.data]: the attribute bag the join listeners write to.  [None]
    is a property that was never assigned. *)
Record socket_data : Type := SocketData {
  role : option value;
  eventId : option value;
  judgeId : option value
}.

Record socket : Type := Socket {
  rooms : gset string;
  data : socket_data
}.

(** A freshly connected socket is in the room named after its own id and
    has an empty attribute bag. *)
Definition new_socket (id : string) : socket :=
  Socket {[ id ]} (SocketData None None None).

(** One call of [io.to(room).emit(event, payload)]. *)
Record emission : Type := Emission {
  em_room : string;
  em_event : string;
  em_payload : value
}.

(** One call of [console.log] or [console.error]: its arguments, a
    template literal being the string it evaluates to. *)
Inductive log_arg : Type :=
| LStr (s : string)
| LVal (v : value).

Inductive log_entry : Type :=
| Log (args : list log_arg)
| Err (args : list log_arg).

Record state : Type := State {
  sockets : gmap string socket;
  clientsCount : Z;
  outbox : list emission;
  console : list log_entry
}.

(** ** The listener monad

    A listener transforms the state and either completes or throws; what it
    did before throwing stays done. *)
Definition M (A : Type) : Type := state → result A * state.

Definition ret {A} (a : A) : M A := λ st, (Ok a, st).

Definition bind {A B} (m : M A) (k : A → M B) : M B :=
  λ st, match m st with
        | (Ok a, st') => k a st'
        | (Throw e, st') => (Throw e, st')
        end.

Declare Scope js_scope.
Delimit Scope js_scope with js.
Notation "x <- c ;; k" := (bind c (λ x, k))
  (at level 100, c at next level, right associativity) : js_scope.
Notation "c ;; k" := (bind c (λ _, k))
  (at level 100, right associativity) : js_scope.
Open Scope js_scope.

Definition lift {A} (r : result A) : M A := λ st, (r, st).

(** [${data.k}] inside a template literal. *)
Definition tpl_field (d : value) (k : string) : M string :=
  v <- lift (get_prop d k);; lift (ToString v).

(** [${v}] for a listener parameter. *)
Definition tpl (v : value) : M string := lift (ToString v).

(** *** The socket.io and console primitives the listeners call *)

Definition add_room (room : string) (s : socket) : socket :=
  Socket ({[ room ]} ∪ rooms s) (data s).

(** [socket.join(room)].  Rooms are a set, so joining a room the socket is
    already in changes nothing.  A listener only runs for a connected
    socket. *)
Definition socket_join (id room : string) : M unit :=
  λ '(State socks n out con),
    (Ok (), State (alter (add_room room) id socks) n out con).

Definition set_role (v : value) (d : socket_data) : socket_data :=
  SocketData (Some v) (eventId d) (judgeId d).
Definition set_eventId (v : value) (d : socket_data) : socket_data :=
  SocketData (role d) (Some v) (judgeId d).
Definition set_judgeId (v : value) (d : socket_data) : socket_data :=
  SocketData (role d) (eventId d) (Some v).

Definition with_data (f : socket_data → socket_data) (s : socket) : socket :=
  Socket (rooms s) (f (data s)).

(** [socket.data.<field> = v], the field being chosen by [f]. *)
Definition update_data (f : socket_data → socket_data) (id : string) : M unit :=
  λ '(State socks n out con),
    (Ok (), State (alter (with_data f) id socks) n out con).

Definition io_to_emit (room event : string) (payload : value) : M unit :=
  λ '(State socks n out con),
    (Ok (), State socks n (out ++ [Emission room event payload]) con).

Definition console_log (args : list log_arg) : M unit :=
  λ '(State socks n out con), (Ok (), State socks n out (con ++ [Log args])).

Definition console_error (args : list log_arg) : M unit :=
  λ '(State socks n out con), (Ok (), State socks n out (con ++ [Err args])).

Definition engine_clientsCount : M Z := λ st, (Ok (clientsCount st), st).

(** ** The listeners registered by [io.on('connection', ...)]

    Every listener is a closure over [socket]; here it takes the socket's
    id.  Template literals are evaluated left to right, each substitution
    being read and converted before the next one. *)

Section Listeners.
Variable socket : string.

(** The body of the connection callback ahead of the registrations. *)
Definition on_connection : M unit :=
  n <- engine_clientsCount;;
  console_log [LStr ("🔌 Client connected: " +:+ socket +:+ " (Total: "
                     +:+ pretty n +:+ ")")].

Definition on_join_event (eventId : value) : M unit :=
  e <- tpl eventId;;
  socket_join socket ("event:" +:+ e);;
  e' <- tpl eventId;;
  console_log [LStr ("📡 Socket " +:+ socket +:+ " joined event room: " +:+ e')].

(** The parameter is the pattern [{ eventId, judgeId }]: destructuring
    [undefined] or [null] throws before the body runs. *)
Definition on_join_judge (arg : value) : M unit :=
  eventId <- lift (get_prop arg "eventId");;
  judgeId <- lift (get_prop arg "judgeId");;
  e <- tpl eventId;;
  socket_join socket ("judges:" +:+ e);;
  update_data (set_judgeId judgeId) socket;;
  update_data (set_eventId eventId) socket;;
  j <- tpl judgeId;;
  e' <- tpl eventId;;
  console_log [LStr ("⚖️ Judge " +:+ j +:+ " joined event " +:+ e')].

Definition on_join_sound (eventId : value) : M unit :=
  e <- tpl eventId;;
  socket_join socket ("sound:" +:+ e);;
  update_data (set_role (VStr "sound")) socket;;
  update_data (set_eventId eventId) socket;;
  e' <- tpl eventId;;
  console_log [LStr ("🎵 Sound tech joined event " +:+ e')].

Definition on_join_backstage (eventId : value) : M unit :=
  e <- tpl eventId;;
  socket_join socket ("backstage:" +:+ e);;
  update_data (set_role (VStr "backstage")) socket;;
  update_data (set_eventId eventId) socket;;
  e' <- tpl eventId;;
  console_log [LStr ("🎭 Backstage joined event " +:+ e')].

Definition on_join_announcer (eventId : value) : M unit :=
  e <- tpl eventId;;
  socket_join socket ("announcer:" +:+ e);;
  update_data (set_role (VStr "announcer")) socket;;
  update_data (set_eventId eventId) socket;;
  e' <- tpl eventId;;
  console_log [LStr ("📢 Announcer joined event " +:+ e')].

Definition on_join_registration (eventId : value) : M unit :=
  e <- tpl eventId;;
  socket_join socket ("registration:" +:+ e);;
  update_data (set_role (VStr "registration")) socket;;
  update_data (set_eventId eventId) socket;;
  e' <- tpl eventId;;
  console_log [LStr ("✅ Registration joined event " +:+ e')].

Definition on_join_media (eventId : value) : M unit :=
  e <- tpl eventId;;
  socket_join socket ("media:" +:+ e);;
  update_data (set_role (VStr "media")) socket;;
  update_data (set_eventId eventId) socket;;
  e' <- tpl eventId;;
  console_log [LStr ("📸 Media joined event " +:+ e')].

(** [io.to(`<prefix>${data.eventId}`).emit(event, data)]: one line of a
    dispatch listener.  The room name is computed first. *)
Definition relay (prefix : string) (event : string) (d : value) : M unit :=
  e <- tpl_field d "eventId";;
  io_to_emit (prefix +:+ e) event d.

Definition on_performance_reorder (d : value) : M unit :=
  e <- tpl_field d "eventId";;
  console_log [LStr ("🔄 Performance reorder broadcast for event " +:+ e)];;
  relay "event:" "performance:reorder" d;;
  relay "judges:" "performance:reorder" d;;
  relay "sound:" "performance:reorder" d;;
  relay "announcer:" "performance:reorder" d;;
  relay "registration:" "performance:reorder" d;;
  relay "media:" "performance:reorder" d.

Definition on_performance_status (d : value) : M unit :=
  p <- tpl_field d "performanceId";;
  s <- tpl_field d "status";;
  console_log [LStr ("📊 Status update broadcast: " +:+ p +:+ " -> " +:+ s)];;
  relay "event:" "performance:status" d;;
  relay "judges:" "performance:status" d;;
  relay "sound:" "performance:status" d;;
  relay "backstage:" "performance:status" d;;
  relay "announcer:" "performance:status" d;;
  relay "registration:" "performance:status" d;;
  relay "media:" "performance:status" d.

Definition on_performance_music_cue (d : value) : M unit :=
  p <- tpl_field d "performanceId";;
  c <- tpl_field d "musicCue";;
  console_log [LStr ("🎵 Music cue broadcast: " +:+ p +:+ " -> " +:+ c)];;
  relay "event:" "performance:music_cue" d;;
  relay "judges:" "performance:music_cue" d;;
  relay "sound:" "performance:music_cue" d;;
  relay "backstage:" "performance:music_cue" d;;
  relay "announcer:" "performance:music_cue" d;;
  relay "registration:" "performance:music_cue" d;;
  relay "media:" "performance:music_cue" d.

Definition on_entry_music_updated (d : value) : M unit :=
  n <- tpl_field d "entryId";;
  console_log [LStr ("🎶 Entry music updated: " +:+ n)];;
  relay "event:" "entry:music_updated" d;;
  relay "judges:" "entry:music_updated" d;;
  relay "sound:" "entry:music_updated" d;;
  relay "backstage:" "entry:music_updated" d;;
  relay "announcer:" "entry:music_updated" d;;
  relay "registration:" "entry:music_updated" d;;
  relay "media:" "entry:music_updated" d.

Definition on_entry_video_updated (d : value) : M unit :=
  n <- tpl_field d "entryId";;
  console_log [LStr ("📹 Entry video updated: " +:+ n)];;
  relay "event:" "entry:video_updated" d;;
  relay "judges:" "entry:video_updated" d;;
  relay "sound:" "entry:video_updated" d;;
  relay "backstage:" "entry:video_updated" d;;
  relay "announcer:" "entry:video_updated" d;;
  relay "registration:" "entry:video_updated" d;;
  relay "media:" "entry:video_updated" d.

Definition on_event_control (d : value) : M unit :=
  a <- tpl_field d "action";;
  e <- tpl_field d "eventId";;
  console_log [LStr ("🎯 Event control: " +:+ a +:+ " for event " +:+ e)];;
  relay "event:" "event:control" d;;
  relay "judges:" "event:control" d;;
  relay "sound:" "event:control" d;;
  relay "announcer:" "event:control" d;;
  relay "registration:" "event:control" d;;
  relay "media:" "event:control" d.

Definition on_presence_update (d : value) : M unit :=
  p <- tpl_field d "performanceId";;
  present <- lift (get_prop d "present");;
  console_log [LStr ("👥 Presence update: " +:+ p +:+ " -> " +:+
                     (if ToBoolean present then "Present" else "Absent"))];;
  relay "event:" "presence:update" d;;
  relay "backstage:" "presence:update" d;;
  relay "announcer:" "presence:update" d;;
  relay "registration:" "presence:update" d;;
  relay "media:" "presence:update" d.

Definition on_performance_announced (d : value) : M unit :=
  p <- tpl_field d "performanceId";;
  console_log [LStr ("📢 Performance announced: " +:+ p)];;
  relay "event:" "performance:announced" d;;
  relay "backstage:" "performance:announced" d;;
  relay "judges:" "performance:announced" d;;
  relay "sound:" "performance:announced" d;;
  relay "registration:" "performance:announced" d;;
  relay "media:" "performance:announced" d.

(** The payload is logged as an object, not interpolated; the emitted
    object literal is built after the room name. *)
Definition on_test_notification (d : value) : M unit :=
  console_log [LStr "📢 Sending test notification:"; LVal d];;
  e <- tpl_field d "eventId";;
  id <- lift (get_prop d "eventId");;
  io_to_emit ("event:" +:+ e) "notification"
    (VObj [("type", VStr "info");
           ("message", VStr "Test notification from backstage!");
           ("eventId", id)]).

Definition on_disconnect (reason : value) : M unit :=
  r <- tpl reason;;
  n <- engine_clientsCount;;
  console_log [LStr ("❌ Client disconnected: " +:+ socket +:+ " (Reason: " +:+ r
                     +:+ ") (Remaining: " +:+ pretty (n - 1)%Z +:+ ")")].

Definition on_error (error : value) : M unit :=
  console_error [LStr ("🚨 Socket error for " +:+ socket +:+ ":"); LVal error].

(** The listener table: [socket.on(name, listener)] for each name, in
    source order.  An event with no listener does nothing. *)
Definition listeners : list (string * (value → M unit)) :=
  [ ("join:event", on_join_event);
    ("join:judge", on_join_judge);
    ("join:sound", on_join_sound);
    ("join:backstage", on_join_backstage);
    ("join:announcer", on_join_announcer);
    ("join:registration", on_join_registration);
    ("join:media", on_join_media);
    ("performance:reorder", on_performance_reorder);
    ("performance:status", on_performance_status);
    ("performance:music_cue", on_performance_music_cue);
    ("entry:music_updated", on_entry_music_updated);
    ("entry:video_updated", on_entry_video_updated);
    ("event:control", on_event_control);
    ("presence:update", on_presence_update);
    ("performance:announced", on_performance_announced);
    ("test:notification", on_test_notification);
    ("disconnect", on_disconnect);
    ("error", on_error) ].

Fixpoint listener_for (name : string) (tbl : list (string * (value → M unit)))
  : option (value → M unit) :=
  match tbl with
  | [] => None
  | (n, h) :: rest => if String.eqb name n then Some h else listener_for name rest
  end.

(** What the listeners of this socket do with one event handed to them: the
    listener registered under the name runs, and a name without a listener
    does nothing.  Which inbound packets socket.io hands over, and what it
    does itself when a socket connects or disconnects, is the transport's
    part (see [reserved_names]). *)
Definition on_message (name : string) (arg : value) : M unit :=
  match listener_for name listeners with
  | Some h => h arg
  | None => ret ()
  end.

End Listeners.

(** ** Delivery

    [io.to(room).emit(...)] hands the message to every socket that is in
    [room] when the call is made, the sender included; each call is a
    broadcast of its own. *)

Definition in_room (st : state) (id room : string) : bool :=
  match sockets st !! id with
  | Some s => bool_decide (room ∈ rooms s)
  | None => false
  end.

(** What socket [id] is handed out of a list of emissions: the event name
    and payload of each one addressed to a room it is in. *)
Definition inbox (st : state) (id : string) (ems : list emission)
  : list (string * value) :=
  map (λ em, (em_event em, em_payload em))
      (List.filter (λ em, in_room st id (em_room em)) ems).

(** The emissions a run added to the outbox. *)
Definition emitted (before after : state) : list emission :=
  drop (length (outbox before)) (outbox after).

(** ** The dispatch table as the specification words it (section 4.2)

    Each inbound event name with the roles whose rooms it is rebroadcast
    to; a role [r] and an event identifier [e] name the room [r:e]. *)
Definition spec_dispatch_table : list (string * list string) :=
  [ ("performance:reorder",
      ["event"; "judges"; "sound"; "announcer"; "registration"; "media"]);
    ("performance:status",
      ["event"; "judges"; "sound"; "backstage"; "announcer"; "registration"; "media"]);
    ("performance:music_cue",
      ["event"; "judges"; "sound"; "backstage"; "announcer"; "registration"; "media"]);
    ("entry:music_updated",
      ["event"; "judges"; "sound"; "backstage"; "announcer"; "registration"; "media"]);
    ("entry:video_updated",
      ["event"; "judges"; "sound"; "backstage"; "announcer"; "registration"; "media"]);
    ("event:control",
      ["event"; "judges"; "sound"; "announcer"; "registration"; "media"]);
    ("presence:update",
      ["event"; "backstage"; "announcer"; "registration"; "media"]);
    ("performance:announced",
      ["event"; "backstage"; "judges"; "sound"; "registration"; "media"]);
    ("test:notification", ["event"]) ].

Definition room_name (r e : string) : string := r +:+ ":" +:+ e.

(** Every role prefix a room name is built from. *)
Definition room_kinds : list string :=
  ["event"; "judges"; "sound"; "backstage"; "announcer"; "registration"; "media"].

(** The event name and payload that go out: the inbound ones, except that
    test:notification sends a synthesized notification. *)
Definition spec_out_event (name : string) : string :=
  if String.eqb name "test:notification" then "notification" else name.

Definition spec_out_payload (name : string) (d id : value) : value :=
  if String.eqb name "test:notification"
  then VObj [("type", VStr "info");
             ("message", VStr "Test notification from backstage!");
             ("eventId", id)]
  else d.

(** ** Which payloads a dispatch listener gets through *)

(** The value [data.k] evaluates to when [data] is neither [undefined] nor
    [null]. *)
Definition field (d : value) (k : string) : value :=
  match d with
  | VObj props => default VUndefined (own_prop k props)
  | _ => VUndefined
  end.

Definition printable (v : value) : bool :=
  match ToString v with Ok _ => true | Throw _ => false end.

(** The fields each dispatch listener interpolates into its log line. *)
Definition logged_fields (name : string) : list string :=
  if String.eqb name "performance:reorder" then ["eventId"]
  else if String.eqb name "performance:status" then ["performanceId"; "status"]
  else if String.eqb name "performance:music_cue" then ["performanceId"; "musicCue"]
  else if String.eqb name "entry:music_updated" then ["entryId"]
  else if String.eqb name "entry:video_updated" then ["entryId"]
  else if String.eqb name "event:control" then ["action"; "eventId"]
  else if String.eqb name "presence:update" then ["performanceId"]
  else if String.eqb name "performance:announced" then ["performanceId"]
  else [].

(** A payload is dispatchable under [name] when reading its fields does not
    throw and every field that is interpolated, [eventId] included, has a
    string form. *)
Definition dispatchable (name : string) (d : value) : bool :=
  match d with
  | VUndefined | VNull => false
  | _ => forallb (λ k, printable (field d k)) ("eventId" :: logged_fields name)
  end.

(** The names of the join listeners, in source order. *)
Definition join_names : list string :=
  ["join:event"; "join:judge"; "join:sound"; "join:backstage";
   "join:announcer"; "join:registration"; "join:media"].

(** The [role] attribute recorded for socket [id], if it is connected and
    the attribute was ever assigned. *)
Definition role_of (st : state) (id : string) : option value :=
  match sockets st !! id with
  | Some s => role (data s)
  | None => None
  end.

(** ** Payloads, server states and auxiliary notions used in the statements *)

(** A server with two freshly connected clients, used to exercise the
    statements below. *)
Definition two_clients : state :=
  State (<["s2" := new_socket "s2"]> (<["s1" := new_socket "s1"]> ∅)) 2 [] [].

Definition announced_rooms (e : string) : list string :=
  ["event:" +:+ e; "backstage:" +:+ e; "judges:" +:+ e; "sound:" +:+ e;
   "registration:" +:+ e; "media:" +:+ e].

Definition announced_payload : value :=
  VObj [("eventId", VStr "evt1"); ("performanceId", VStr "p7")].

Definition presence_payload : value :=
  VObj [("eventId", VStr "evt1"); ("performanceId", VStr "p1");
        ("present", VBool true)].

Definition test_payload : value := VObj [("eventId", VStr "evt1")].

Definition test_notification : value :=
  VObj [("type", VStr "info");
        ("message", VStr "Test notification from backstage!");
        ("eventId", VStr "evt1")].

Definition status_payload : value :=
  VObj [("eventId", VStr "evt1"); ("performanceId", VStr "p1");
        ("status", VStr "ready")].

(** Client s1 is a judge of evt1, client s2 watches evt2. *)
Definition judge_and_watcher : state :=
  (on_message "s2" "join:event" (VStr "evt2")
     (on_message "s1" "join:judge"
        (VObj [("eventId", VStr "evt1"); ("judgeId", VStr "j1")]) two_clients).2).2.

Definition event_one : value := VObj [("id", VNum 1)].
Definition event_two : value := VObj [("id", VNum 2)].

(** Client s2 joins the event room of [event_two]. *)
Definition watcher_of_two : state :=
  (on_message "s2" "join:event" event_two two_clients).2.

(** Client s1 is the announcer of evt1 and also watches it. *)
Definition announcer_and_watcher : state :=
  (on_message "s1" "join:event" (VStr "evt1")
     (on_message "s1" "join:announcer" (VStr "evt1") two_clients).2).2.

(** Client s1 is the backstage client of evt1. *)
Definition backstage_client : state :=
  (on_message "s1" "join:backstage" (VStr "evt1") two_clients).2.

Definition plain_status : value :=
  VObj [("eventId", VStr "evt1"); ("performanceId", VStr "p1")].

Definition odd_status : value :=
  VObj [("eventId", VStr "evt1");
        ("performanceId", VObj [("toString", VNum 1)])].

(** What a join listener does to the socket table when the room name can be
    built: the room is added and the attributes are written. *)
Definition joined (room : string) (f : socket_data → socket_data)
    (id : string) (socks : gmap string socket) : gmap string socket :=
  alter (λ s, with_data f (add_room room s)) id socks.

Definition role_names : list string :=
  ["sound"; "backstage"; "announcer"; "registration"; "media"].

(** An event name is inert when receiving it never throws, never emits and
    never changes a socket. *)
Definition inert (name : string) : Prop :=
  ∀ socket arg st,
    (on_message socket name arg st).1 = Ok () ∧
    sockets (on_message socket name arg st).2 = sockets st ∧
    outbox (on_message socket name arg st).2 = outbox st.

Definition judge_payload : value :=
  VObj [("eventId", VStr "evt1"); ("judgeId", VStr "j1")].

(** ** Entering a room

    The message a client sends to enter the room of a given kind, as the
    join listeners take it: the judges room is entered through join:judge
    with an object carrying the identifier, every other room through
    join:<kind> with the bare identifier. *)
Definition join_request (kind : string) (eid : value) : string * value :=
  if String.eqb kind "judges"
  then ("join:judge", VObj [("eventId", eid)])
  else ("join:" +:+ kind, eid).

(** The kinds whose join listener takes the bare identifier. *)
Definition plain_join_kinds : list string :=
  ["event"; "sound"; "backstage"; "announcer"; "registration"; "media"].

(** ** The allowed origins ([getAllowedOrigins])

    [process.env] is a finite map from names to strings; a variable that is
    unset or empty is falsy. *)
Definition env_truthy (env : gmap string string) (k : string) : option string :=
  match env !! k with
  | Some "" | None => None
  | Some v => Some v
  end.

Definition comma : Ascii.ascii := Ascii.ascii_of_N 0x2C.

(** [s.split(',')]: the first segment and the segments after it.  A string
    with n commas has n + 1 segments, empty ones included. *)
Fixpoint split_comma (s : string) : string * list string :=
  match s with
  | "" => ("", [])
  | String c rest =>
      let '(seg, segs) := split_comma rest in
      if Ascii.eqb c comma then ("", seg :: segs) else (String c seg, segs)
  end.

Definition split (s : string) : list string :=
  let '(seg, segs) := split_comma s in seg :: segs.

Definition is_byte (c : Ascii.ascii) (n : N) : bool := (Ascii.N_of_ascii c =? n)%N.

(** The white space and line terminators of ECMAScript that take one, two
    or three bytes in UTF-8: U+0009 to U+000D and U+0020; U+00A0; U+1680,
    U+2000 to U+200A, U+2028, U+2029, U+202F, U+205F, U+3000 and U+FEFF. *)
Definition ws2 (c1 c2 : Ascii.ascii) : bool := is_byte c1 0xC2 && is_byte c2 0xA0.

Definition ws3 (c1 c2 c3 : Ascii.ascii) : bool :=
  (is_byte c1 0xE1 && is_byte c2 0x9A && is_byte c3 0x80)
  || (is_byte c1 0xE2 && is_byte c2 0x80 &&
      ((0x80 <=? Ascii.N_of_ascii c3)%N && (Ascii.N_of_ascii c3 <=? 0x8A)%N
       || is_byte c3 0xA8 || is_byte c3 0xA9 || is_byte c3 0xAF))
  || (is_byte c1 0xE2 && is_byte c2 0x81 && is_byte c3 0x9F)
  || (is_byte c1 0xE3 && is_byte c2 0x80 && is_byte c3 0x80)
  || (is_byte c1 0xEF && is_byte c2 0xBB && is_byte c3 0xBF).

(** Drop every leading white-space character; [two] and [three] recognise
    the multi-byte ones in the order the bytes are met. *)
Fixpoint strip_ws (two : Ascii.ascii → Ascii.ascii → bool)
    (three : Ascii.ascii → Ascii.ascii → Ascii.ascii → bool) (l : list Ascii.ascii) : list Ascii.ascii :=
  match l with
  | [] => []
  | c1 :: r1 =>
      if Ascii.is_space c1 then strip_ws two three r1
      else match r1 with
           | [] => l
           | c2 :: r2 =>
               if two c1 c2 then strip_ws two three r2
               else match r2 with
                    | [] => l
                    | c3 :: r3 =>
                        if three c1 c2 c3 then strip_ws two three r3 else l
                    end
           end
  end.

Definition trimStart (s : string) : string :=
  String.string_of_list_ascii (strip_ws ws2 ws3 (String.list_ascii_of_string s)).

(** The end is trimmed by reading the bytes backwards. *)
Definition trimEnd (s : string) : string :=
  String.string_of_list_ascii
    (rev (strip_ws (λ c2 c1, ws2 c1 c2) (λ c3 c2 c1, ws3 c1 c2 c3)
            (rev (String.list_ascii_of_string s)))).

Definition trim (s : string) : string := trimEnd (trimStart s).

Definition default_origins : list string :=
  ["http://localhost:3000"; "https://localhost:3000"].

(** The origins and what is written to the console. *)
Definition getAllowedOrigins (env : gmap string string)
  : list string * list log_entry :=
  match env_truthy env "ALLOWED_ORIGINS" with
  | Some v => (map trim (split v), [])
  | None =>
      let origins := default_origins in
      let origins :=
        match env_truthy env "RAILWAY_PUBLIC_DOMAIN" with
        | Some d => (origins ++ ["https://" +:+ d])%list
        | None => origins
        end in
      let origins :=
        match env_truthy env "VERCEL_URL" with
        | Some d => (origins ++ ["https://" +:+ d])%list
        | None => origins
        end in
      let origins :=
        match env_truthy env "FRONTEND_URL" with
        | Some u => (origins ++ [u])%list
        | None => origins
        end in
      (origins, [Log [LStr "🌐 Allowed CORS origins:"; LVal (VArr (map VStr origins))]])
  end.

(** ** The HTTP responder ([server.on('request', ...)]) *)

Record request : Type := Request {
  url : string;
  method : string
}.

(** What [res.end] is given: a literal text, or [JSON.stringify] of a
    value. *)
Inductive body : Type :=
| Text (s : string)
| Json (v : value).

Record response : Type := Response {
  statusCode : Z;
  headers : list (string * string);
  content : body
}.

(** [now] is what [new Date().toISOString()] returns when the request is
    handled. *)
Definition on_request (st : state) (now : string) (req : request) : response :=
  if String.eqb (url req) "/health" && String.eqb (method req) "GET"
  then Response 200 [("Content-Type", "application/json")]
         (Json (VObj [("status", VStr "healthy");
                      ("timestamp", VStr now);
                      ("connectedClients", VNum (clientsCount st))]))
  else Response 200 [("Content-Type", "text/plain")]
         (Text "EODSA WebSocket Server - Running").

(** Example environments. *)
Definition production_env : gmap string string :=
  <["ALLOWED_ORIGINS" := "https://eodsa.vercel.app, https://www.avalondance.co.za"]>
    (<["FRONTEND_URL" := "https://eodsa.vercel.app"]> ∅).

Definition railway_env : gmap string string :=
  <["ALLOWED_ORIGINS" := ""]>
    (<["RAILWAY_PUBLIC_DOMAIN" := "eodsa.up.railway.app"]>
       (<["FRONTEND_URL" := "https://eodsa.vercel.app"]> ∅)).

(** The number of commas in a string. *)
Definition count_commas (s : string) : nat :=
  length (List.filter (λ c, Ascii.eqb c comma) (String.list_ascii_of_string s)).

(** A visible ASCII character: a byte from 0x21 to 0x7E. *)
Definition visible (c : Ascii.ascii) : bool :=
  (0x21 <=? Ascii.N_of_ascii c)%N && (Ascii.N_of_ascii c <=? 0x7E)%N.

(** A string that begins and ends with a visible ASCII character. *)
Definition visible_ends (s : string) : bool :=
  match String.list_ascii_of_string s with
  | [] => false
  | c :: r => visible c && visible (List.last r c)
  end.

(** The origins the default branch appends for one variable. *)
Definition pushed (pre : string) (v : option string) : list string :=
  match v with
  | Some d => [pre +:+ d]
  | None => []
  end.

(** Identifiers and arguments without a string form, for the examples. *)
Definition odd_identifier : value := VObj [("toString", VStr "evt1")].

Definition odd_judge : value :=
  VObj [("eventId", VStr "evt1"); ("judgeId", VObj [("toString", VNull)])].

Definition plain_env : gmap string string :=
  <["ALLOWED_ORIGINS" := "https://a.example,https://b.example"]> ∅.

(** ** What reaches a listener

    The event names socket.io keeps for itself (they are part of socket.io,
    not of this repository).  An inbound packet carrying one of them is
    refused by the transport and never handed to a listener; [disconnect] is
    raised by the transport itself, once it has taken the socket out of its
    rooms.  [on_message] describes the others: what the socket's listeners do
    with an event a client sent. *)
Definition reserved_names : list string :=
  ["connect"; "connect_error"; "disconnect"; "disconnecting";
   "newListener"; "removeListener"].

(** The property names the listeners read from their argument. *)
Definition read_fields : list string :=
  ["eventId"; "judgeId"; "performanceId"; "status"; "musicCue"; "entryId";
   "action"; "present"].

(** A run of client events, each given by the receiving socket, the event
    name and the argument; every event is handled in the state the previous
    one left, whether or not its listener threw. *)
Definition run_events (evs : list (string * string * value)) (st : state) : state :=
  fold_left (λ st ev, (on_message ev.1.1 ev.1.2 ev.2 st).2) evs st.

(** A performance:announced payload whose performanceId has no string
    form. *)
Definition odd_announced : value :=
  VObj [("eventId", VStr "evt1");
        ("performanceId", VObj [("toString", VNum 1)])].

(** Events that follow a join in the examples: the joiner takes a second
    role, another client joins, a malformed status message throws, and a
    reorder is broadcast. *)
Definition later_events : list (string * string * value) :=
  [ ("s2", "join:media", VStr "evt2");
    ("s1", "join:backstage", VStr "evt1");
    ("s1", "performance:status", VNull);
    ("s1", "performance:reorder", VObj [("eventId", VStr "evt1")]) ].

(** * Properties *)

(** ** Reading fields and converting them *)

Lemma get_prop_field d k :
  d ≠ VUndefined → d ≠ VNull → get_prop d k = Ok (field d k).
Proof. by destruct d. Qed.

Lemma get_prop_Ok_field d k v : get_prop d k = Ok v → v = field d k.
Proof. destruct d; simpl; congruence. Qed.

Lemma printable_Ok v : printable v = true → ∃ s, ToString v = Ok s.
Proof. unfold printable. destruct (ToString v); [eauto | done]. Qed.

Lemma Ok_printable v s : ToString v = Ok s → printable v = true.
Proof. unfold printable. by intros ->. Qed.

Lemma dispatchable_nonnull name d :
  dispatchable name d = true → d ≠ VUndefined ∧ d ≠ VNull.
Proof. by destruct d. Qed.

Lemma dispatchable_fields name d :
  dispatchable name d = true →
  Forall (λ k, ∃ s, ToString (field d k) = Ok s) ("eventId" :: logged_fields name).
Proof.
  intros H. apply Forall_forall. intros k Hk. apply printable_Ok.
  assert (Hall : forallb (λ k, printable (field d k))
                   ("eventId" :: logged_fields name) = true)
    by (destruct d; done).
  rewrite forallb_forall in Hall. apply Hall. by apply list_elem_of_In.
Qed.

(** ** Running a dispatch listener *)

Ltac pick_listener :=
  unfold on_message;
  match goal with
  | |- context [listener_for ?n (listeners ?s)] =>
      let r := eval cbv [listener_for listeners String.eqb Ascii.eqb Bool.eqb]
               in (listener_for n (listeners s)) in
      change (listener_for n (listeners s)) with r
  end; cbv beta iota.

Ltac open_listener :=
  pick_listener;
  cbv [on_performance_reorder on_performance_status on_performance_music_cue
       on_entry_music_updated on_entry_video_updated on_event_control
       on_presence_update on_performance_announced on_test_notification
       relay tpl_field].

Ltac run_listener :=
  cbv [bind lift ret io_to_emit console_log fst snd sockets outbox].

Ltac table_cases Hin :=
  unfold spec_dispatch_table in Hin;
  repeat (apply elem_of_cons in Hin as [Hin | Hin]; [injection Hin as -> -> | ]);
  [ .. | by apply elem_of_nil in Hin ].

(** On a dispatchable payload the listener completes: it leaves the sockets
    alone, writes one log line, and appends one emission per listed role,
    in the listed order, each carrying the outgoing name and payload. *)
Lemma dispatch_run socket name roles d st :
  (name, roles) ∈ spec_dispatch_table →
  dispatchable name d = true →
  ∃ e line,
    ToString (field d "eventId") = Ok e ∧
    on_message socket name d st =
      (Ok (), State (sockets st) (clientsCount st)
                (outbox st ++
                 map (λ r, Emission (room_name r e) (spec_out_event name)
                             (spec_out_payload name d (field d "eventId"))) roles)
                (console st ++ [Log line])).
Proof.
  intros Hin Hd.
  destruct (dispatchable_nonnull _ _ Hd) as [Hu Hn].
  pose proof (dispatchable_fields _ _ Hd) as Hf.
  assert (Hget : ∀ k, get_prop d k = Ok (field d k))
    by (intros; by apply get_prop_field).
  destruct st as [socks n out con].
  table_cases Hin;
    simpl in Hf; repeat (apply Forall_cons in Hf as [[? ?] Hf]); clear Hf.
  all: eexists _, _; split; [eassumption |].
  all: open_listener; run_listener; rewrite ?Hget; cbv beta iota.
  all: repeat match goal with
         | H : ToString _ = Ok _ |- _ => rewrite ?H; clear H
         end.
  all: cbv beta iota; cbn [sockets clientsCount outbox console].
  all: rewrite <- ?app_assoc.
  all: reflexivity.
Qed.

(** On any other payload the listener throws a [TypeError] before its first
    emission. *)
Lemma dispatch_throw socket name roles d st :
  (name, roles) ∈ spec_dispatch_table →
  dispatchable name d = false →
  (on_message socket name d st).1 = Throw TypeError ∧
  sockets (on_message socket name d st).2 = sockets st ∧
  outbox (on_message socket name d st).2 = outbox st.
Proof.
  intros Hin Hd. destruct st as [socks n out con].
  table_cases Hin.
  all: open_listener.
  all: destruct d as [ | | b | n' | s | elems | props ]; try discriminate Hd.
  all: try (cbv [get_prop]; run_listener; done).
  all: unfold dispatchable, printable in Hd;
       cbn [forallb logged_fields String.eqb Ascii.eqb Bool.eqb] in Hd.
  all: change (get_prop (VObj props)) with (λ k, Ok (field (VObj props) k));
       run_listener; revert Hd.
  all: repeat match goal with
         | |- context [ToString (field ?d ?k)] =>
             destruct (ToString (field d k)) as [?|[]] eqn:?
         end.
  all: try discriminate.
  all: intros _; cbv beta iota; done.
Qed.

Lemma emitted_app st socks n out con :
  emitted st (State socks n (outbox st ++ out) con) = out.
Proof. unfold emitted. simpl. apply drop_app_length. Qed.

(** The run of a dispatchable payload, in terms of what it emitted. *)
Lemma dispatch_emitted socket name roles d st :
  (name, roles) ∈ spec_dispatch_table →
  dispatchable name d = true →
  ∃ e,
    ToString (field d "eventId") = Ok e ∧
    (on_message socket name d st).1 = Ok () ∧
    sockets (on_message socket name d st).2 = sockets st ∧
    emitted st (on_message socket name d st).2 =
      map (λ r, Emission (room_name r e) (spec_out_event name)
                  (spec_out_payload name d (field d "eventId"))) roles.
Proof.
  intros Hin Hd.
  destruct (dispatch_run socket name roles d st Hin Hd) as (e & line & He & ->).
  exists e. simpl. by rewrite emitted_app.
Qed.

(** ** Room names *)

(** Two room names coincide only when they have the same prefix and the
    same event-identifier string. *)
Lemma room_name_inj r r' e e' :
  r ∈ room_kinds → r' ∈ room_kinds →
  room_name r e = room_name r' e' → r = r' ∧ e = e'.
Proof.
  unfold room_kinds. intros Hr Hr' Heq.
  repeat (apply elem_of_cons in Hr as [-> | Hr]);
    [ .. | by apply elem_of_nil in Hr ].
  all: repeat (apply elem_of_cons in Hr' as [-> | Hr']);
    [ .. | by apply elem_of_nil in Hr' ].
  all: cbv [room_name String.append] in Heq; by simplify_eq.
Qed.

Lemma table_roles_kinds name roles r :
  (name, roles) ∈ spec_dispatch_table → r ∈ roles → r ∈ room_kinds.
Proof.
  intros Hin Hr. unfold room_kinds. table_cases Hin.
  all: repeat (apply elem_of_cons in Hr as [-> | Hr]);
    [ .. | by apply elem_of_nil in Hr ].
  all: repeat first [ apply list_elem_of_here | apply list_elem_of_further ].
Qed.

(** ** Delivery *)

Lemma inbox_elem st id ems em :
  em ∈ ems → in_room st id (em_room em) = true →
  (em_event em, em_payload em) ∈ inbox st id ems.
Proof.
  intros Hem Hin. unfold inbox.
  apply (list_elem_of_fmap_2 (λ em, (em_event em, em_payload em))).
  apply list_elem_of_In, filter_In. split; [by apply list_elem_of_In | done].
Qed.

Lemma inbox_nil st id ems :
  (∀ em, em ∈ ems → in_room st id (em_room em) = false) →
  inbox st id ems = [].
Proof.
  intros H. unfold inbox.
  induction ems as [| em ems IH]; [done |].
  simpl. rewrite (H em) by apply list_elem_of_here.
  apply IH. intros em' Hem'. apply H. by apply list_elem_of_further.
Qed.

Lemma inbox_nil_inv st id ems em :
  inbox st id ems = [] → em ∈ ems → in_room st id (em_room em) = false.
Proof.
  intros Hnil Hem.
  destruct (in_room st id (em_room em)) eqn:Hin; [| done].
  pose proof (inbox_elem _ _ _ _ Hem Hin) as H. rewrite Hnil in H.
  by apply elem_of_nil in H.
Qed.

(** * Routing, joining and failure behaviour *)

(** ** Dispatch rows *)

(** C2, as the code has it.  A performance:announced payload carrying
    eventId [E], when [E] and the logged performanceId have string forms, is
    rebroadcast under the same name to the event, backstage, judges, sound,
    registration and media rooms of [E] and not to its announcer room,
    whereas every other rebroadcasting row of the table does emit to the
    announcer room. *)
Theorem announced_skips_announcer socket d st E e :
  get_prop d "eventId" = Ok E →
  ToString E = Ok e →
  printable (field d "performanceId") = true →
  (on_message socket "performance:announced" d st).1 = Ok () ∧
  emitted st (on_message socket "performance:announced" d st).2 =
    map (λ room, Emission room "performance:announced" d) (announced_rooms e) ∧
  (("announcer:" +:+ e) ∉ announced_rooms e) ∧
  (∀ name roles d',
     (name, roles) ∈ spec_dispatch_table →
     name ≠ "performance:announced" → name ≠ "test:notification" →
     dispatchable name d' = true →
     get_prop d' "eventId" = Ok E →
     Emission ("announcer:" +:+ e) name d'
       ∈ emitted st (on_message socket name d' st).2).
Proof.
  intros HE He Hp.
  assert (Hd : dispatchable "performance:announced" d = true).
  { apply get_prop_Ok_field in HE as HE'. subst E.
    destruct d; try discriminate HE; cbn [dispatchable forallb logged_fields
      String.eqb Ascii.eqb Bool.eqb];
      rewrite (Ok_printable _ _ He), Hp; done. }
  apply get_prop_Ok_field in HE. subst E.
  destruct (dispatch_emitted socket _ _ d st
              ltac:(do 7 apply list_elem_of_further; apply list_elem_of_here) Hd)
    as (e0 & He0 & Hok & _ & Hem).
  rewrite He in He0. injection He0 as <-.
  split; [done |]. split; [exact Hem |]. split.
  - unfold announced_rooms. intros Hin.
    repeat (apply elem_of_cons in Hin as [Hin | Hin]; [by simplify_eq |]).
    by apply elem_of_nil in Hin.
  - intros name roles d' Hin Hna Hnt Hd' HE'.
    apply get_prop_Ok_field in HE'.
    destruct (dispatch_emitted socket _ _ d' st Hin Hd')
      as (e' & He' & _ & _ & ->).
    rewrite <- HE', He in He'. injection He' as <-.
    table_cases Hin; try done.
    all: cbn [map spec_out_event spec_out_payload String.eqb Ascii.eqb Bool.eqb].
    all: repeat first [ apply list_elem_of_here | apply list_elem_of_further ].
Qed.

Lemma announced_skips_announcer_witness :
  get_prop announced_payload "eventId" = Ok (VStr "evt1") ∧
  ToString (VStr "evt1") = Ok "evt1" ∧
  printable (field announced_payload "performanceId") = true ∧
  (on_message "s1" "performance:announced" announced_payload two_clients).1 = Ok () ∧
  emitted two_clients
    (on_message "s1" "performance:announced" announced_payload two_clients).2 =
    map (λ room, Emission room "performance:announced" announced_payload)
        (announced_rooms "evt1").
Proof.
  split; [reflexivity |]. split; [reflexivity |]. split; [reflexivity |].
  destruct (announced_skips_announcer "s1" announced_payload two_clients
              (VStr "evt1") "evt1" eq_refl eq_refl eq_refl) as (H1 & H2 & _).
  split; [exact H1 | exact H2].
Defined.

(** C2 fails as stated: a payload carrying eventId evt1 whose performanceId
    has no string form is not rebroadcast at all, the log line of the
    listener throwing before the first emit. *)
Lemma announced_needs_printable_performance :
  get_prop odd_announced "eventId" = Ok (VStr "evt1") ∧
  (on_message "s1" "performance:announced" odd_announced two_clients).1
  = Throw TypeError ∧
  emitted two_clients
    (on_message "s1" "performance:announced" odd_announced two_clients).2 = [].
Proof. vm_compute. done. Qed.

(** ** The two scenarios of the specification *)

(** C3.  The presence:update scenario: the payload goes out unchanged, under
    the same name, to the event, backstage, announcer, registration and
    media rooms of evt1 and to no other room. *)
Theorem presence_update_scenario socket st :
  on_message socket "presence:update" presence_payload st =
    (Ok (),
     State (sockets st) (clientsCount st)
       (outbox st ++
        [ Emission "event:evt1" "presence:update" presence_payload;
          Emission "backstage:evt1" "presence:update" presence_payload;
          Emission "announcer:evt1" "presence:update" presence_payload;
          Emission "registration:evt1" "presence:update" presence_payload;
          Emission "media:evt1" "presence:update" presence_payload ])
       (console st ++ [Log [LStr "👥 Presence update: p1 -> Present"]])) ∧
  (∀ em, em ∈ emitted st (on_message socket "presence:update" presence_payload st).2 →
         em_room em ∈ ["event:evt1"; "backstage:evt1"; "announcer:evt1";
                       "registration:evt1"; "media:evt1"] ∧
         em_room em ≠ "judges:evt1" ∧ em_room em ≠ "sound:evt1" ∧
         em_event em = "presence:update" ∧ em_payload em = presence_payload).
Proof.
  assert (Hrun : on_message socket "presence:update" presence_payload st =
    (Ok (),
     State (sockets st) (clientsCount st)
       (outbox st ++
        [ Emission "event:evt1" "presence:update" presence_payload;
          Emission "backstage:evt1" "presence:update" presence_payload;
          Emission "announcer:evt1" "presence:update" presence_payload;
          Emission "registration:evt1" "presence:update" presence_payload;
          Emission "media:evt1" "presence:update" presence_payload ])
       (console st ++ [Log [LStr "👥 Presence update: p1 -> Present"]]))).
  { destruct st as [socks n out con]. open_listener. run_listener.
    simpl. rewrite <- ?app_assoc. reflexivity. }
  split; [exact Hrun |].
  rewrite Hrun. cbn [snd]. rewrite emitted_app. intros em Hem.
  repeat (apply elem_of_cons in Hem as [-> | Hem]);
    [ .. | by apply elem_of_nil in Hem ].
  all: cbn [em_room em_event em_payload]; split_and!; try done.
  all: repeat first [ apply list_elem_of_here | apply list_elem_of_further ].
Qed.

(** C4.  The test:notification scenario: exactly one message goes out, named
    notification, with the synthesized payload, to the room event:evt1; a
    socket is handed it exactly when it is in that room, and the inbound
    payload itself is not forwarded. *)
Theorem test_notification_scenario socket st :
  on_message socket "test:notification" test_payload st =
    (Ok (),
     State (sockets st) (clientsCount st)
       (outbox st ++ [Emission "event:evt1" "notification" test_notification])
       (console st ++ [Log [LStr "📢 Sending test notification:"; LVal test_payload]])) ∧
  emitted st (on_message socket "test:notification" test_payload st).2 =
    [Emission "event:evt1" "notification" test_notification] ∧
  test_notification ≠ test_payload ∧
  (∀ id, inbox st id (emitted st (on_message socket "test:notification" test_payload st).2) =
         if in_room st id "event:evt1" then [("notification", test_notification)] else []).
Proof.
  assert (Hrun : on_message socket "test:notification" test_payload st =
    (Ok (),
     State (sockets st) (clientsCount st)
       (outbox st ++ [Emission "event:evt1" "notification" test_notification])
       (console st ++ [Log [LStr "📢 Sending test notification:"; LVal test_payload]]))).
  { destruct st as [socks n out con]. open_listener. run_listener. reflexivity. }
  split; [exact Hrun |]. rewrite Hrun. cbn [snd]. rewrite emitted_app.
  split; [done |]. split; [done |].
  intros id. unfold inbox. cbn [List.filter em_room].
  by destruct (in_room st id "event:evt1").
Qed.

(** ** Fan-out and isolation *)

Lemma emitted_rooms_listed roles e ev p em :
  em ∈ map (λ r, Emission (room_name r e) ev p) roles →
  ∃ r, r ∈ roles ∧ em = Emission (room_name r e) ev p.
Proof.
  intros Hem. apply list_elem_of_fmap in Hem as (r & -> & Hr). eauto.
Qed.

(** C1, as the code has it.  A dispatchable message whose eventId has the
    string form [e] is emitted to exactly the rooms its table row lists for
    [e]; every member of a listed room is handed it; no emission goes to a
    room named after an identifier whose string form differs from [e]; and
    a socket that is only in its own room and in rooms of such an identifier
    is handed nothing. *)
Theorem fanout_complete_and_isolated socket name roles d st :
  (name, roles) ∈ spec_dispatch_table →
  dispatchable name d = true →
  ∃ e,
    ToString (field d "eventId") = Ok e ∧
    (on_message socket name d st).1 = Ok () ∧
    emitted st (on_message socket name d st).2 =
      map (λ r, Emission (room_name r e) (spec_out_event name)
                  (spec_out_payload name d (field d "eventId"))) roles ∧
    (∀ id r,
       r ∈ roles → in_room st id (room_name r e) = true →
       (spec_out_event name, spec_out_payload name d (field d "eventId"))
         ∈ inbox st id (emitted st (on_message socket name d st).2)) ∧
    (∀ E' e' r' em,
       ToString E' = Ok e' → e' ≠ e → r' ∈ room_kinds →
       em ∈ emitted st (on_message socket name d st).2 →
       em_room em ≠ room_name r' e') ∧
    (∀ id s E' e',
       ToString E' = Ok e' → e' ≠ e →
       sockets st !! id = Some s →
       (∀ room, room ∈ rooms s →
                room = id ∨ ∃ r', r' ∈ room_kinds ∧ room = room_name r' e') →
       (∀ r, r ∈ room_kinds → id ≠ room_name r e) →
       inbox st id (emitted st (on_message socket name d st).2) = []).
Proof.
  intros Hin Hd.
  destruct (dispatch_emitted socket name roles d st Hin Hd)
    as (e & He & Hok & _ & Hem).
  exists e. rewrite Hem.
  split; [exact He |]. split; [exact Hok |]. split; [reflexivity |].
  split; [| split].
  - intros id r Hr Hroom.
    apply (inbox_elem st id _
             (Emission (room_name r e) (spec_out_event name)
                (spec_out_payload name d (field d "eventId")))); [| done].
    by apply (list_elem_of_fmap_2 (λ r, Emission (room_name r e) _ _)).
  - intros E' e' r' em _ Hne Hr' Hin' Heq.
    apply emitted_rooms_listed in Hin' as (r & Hr & ->). simpl in Heq.
    apply room_name_inj in Heq as [_ ->]; [done | | done].
    by eapply table_roles_kinds.
  - intros id s E' e' _ Hne Hs Honly Hid.
    apply inbox_nil. intros em Hin'.
    apply emitted_rooms_listed in Hin' as (r & Hr & ->). simpl.
    unfold in_room. rewrite Hs. apply bool_decide_eq_false. intros Hroom.
    pose proof (table_roles_kinds _ _ _ Hin Hr) as Hk.
    destruct (Honly _ Hroom) as [Heq | (r' & Hr' & Heq)].
    + by apply (Hid r Hk).
    + apply room_name_inj in Heq as [_ ->]; done.
Qed.

Lemma fanout_complete_and_isolated_witness :
  dispatchable "performance:status" status_payload = true ∧
  ("performance:status", status_payload)
    ∈ inbox judge_and_watcher "s1"
        (emitted judge_and_watcher
           (on_message "s2" "performance:status" status_payload judge_and_watcher).2) ∧
  inbox judge_and_watcher "s2"
    (emitted judge_and_watcher
       (on_message "s2" "performance:status" status_payload judge_and_watcher).2) = [].
Proof.
  split; [reflexivity |].
  destruct (fanout_complete_and_isolated "s2" "performance:status"
              ["event"; "judges"; "sound"; "backstage"; "announcer";
               "registration"; "media"] status_payload judge_and_watcher)
    as (e & He & _ & _ & Hall & _ & Hnone).
  - apply list_elem_of_further, list_elem_of_here.
  - reflexivity.
  - injection He as <-. split.
    + apply (Hall "s1" "judges"); [| reflexivity].
      apply list_elem_of_further, list_elem_of_here.
    + apply (Hnone "s2" (Socket ({["event:evt2"]} ∪ {["s2"]}) (SocketData None None None))
               (VStr "evt2") "evt2"); [reflexivity | discriminate | reflexivity | | ].
      * intros room Hroom. simpl in Hroom.
        apply elem_of_union in Hroom as [Hroom | Hroom];
          apply elem_of_singleton in Hroom; subst room.
        -- right. exists "event". split; [apply list_elem_of_here | reflexivity].
        -- by left.
      * intros r Hr. unfold room_kinds in Hr.
        repeat (apply elem_of_cons in Hr as [-> | Hr]);
          [ .. | by apply elem_of_nil in Hr ]; discriminate.
Defined.

(** C1 fails as stated: two distinct event identifiers with the same string
    form share their rooms.  A status message for [event_one] is emitted to
    the event room named after [event_two] and handed to a client that only
    ever joined [event_two]. *)
Lemma isolation_counterexample :
  event_one ≠ event_two ∧
  (∃ e', ToString event_two = Ok e' ∧
         Emission (room_name "event" e') "performance:status"
                  (VObj [("eventId", event_one)])
           ∈ emitted watcher_of_two
               (on_message "s1" "performance:status"
                  (VObj [("eventId", event_one)]) watcher_of_two).2) ∧
  inbox watcher_of_two "s2"
    (emitted watcher_of_two
       (on_message "s1" "performance:status"
          (VObj [("eventId", event_one)]) watcher_of_two).2)
  = [("performance:status", VObj [("eventId", event_one)])].
Proof.
  split; [discriminate |]. split.
  - exists "[object Object]". split; [reflexivity |]. apply list_elem_of_here.
  - vm_compute. reflexivity.
Qed.

(** ** The sender's own copy *)

(** C10, as the code has it.  The sender of a dispatchable message is handed
    its own rebroadcast whenever it is in one of the row's rooms; what is
    emitted does not depend on who sent the message; and any socket, sender
    or not, is handed nothing exactly when it is in none of the row's
    rooms. *)
Theorem sender_receives_own_rebroadcast socket name roles d st :
  (name, roles) ∈ spec_dispatch_table →
  dispatchable name d = true →
  ∃ e,
    ToString (field d "eventId") = Ok e ∧
    (∀ r,
       r ∈ roles → in_room st socket (room_name r e) = true →
       (spec_out_event name, spec_out_payload name d (field d "eventId"))
         ∈ inbox st socket (emitted st (on_message socket name d st).2)) ∧
    (∀ other,
       emitted st (on_message other name d st).2 =
       emitted st (on_message socket name d st).2) ∧
    (∀ id,
       inbox st id (emitted st (on_message socket name d st).2) = [] ↔
       ∀ r, r ∈ roles → in_room st id (room_name r e) = false).
Proof.
  intros Hin Hd.
  destruct (dispatch_emitted socket name roles d st Hin Hd)
    as (e & He & _ & _ & Hem).
  exists e. rewrite Hem. split; [exact He |]. split; [| split].
  - intros r Hr Hroom.
    apply (inbox_elem st socket _
             (Emission (room_name r e) (spec_out_event name)
                (spec_out_payload name d (field d "eventId")))); [| done].
    by apply (list_elem_of_fmap_2 (λ r, Emission (room_name r e) _ _)).
  - intros other.
    destruct (dispatch_emitted other name roles d st Hin Hd)
      as (e' & He' & _ & _ & ->).
    rewrite He in He'. by injection He' as <-.
  - intros id. split.
    + intros Hnil r Hr.
      apply (inbox_nil_inv st id _
               (Emission (room_name r e) (spec_out_event name)
                  (spec_out_payload name d (field d "eventId"))) Hnil).
      by apply (list_elem_of_fmap_2 (λ r, Emission (room_name r e) _ _)).
    + intros Hnone. apply inbox_nil. intros em Hem'.
      apply emitted_rooms_listed in Hem' as (r & Hr & ->). by apply Hnone.
Qed.

Lemma sender_receives_own_rebroadcast_witness :
  dispatchable "performance:announced" announced_payload = true ∧
  ("performance:announced", announced_payload)
    ∈ inbox announcer_and_watcher "s1"
        (emitted announcer_and_watcher
           (on_message "s1" "performance:announced" announced_payload
              announcer_and_watcher).2).
Proof.
  split; [reflexivity |].
  destruct (sender_receives_own_rebroadcast "s1" "performance:announced"
              ["event"; "backstage"; "judges"; "sound"; "registration"; "media"]
              announced_payload announcer_and_watcher)
    as (e & He & Hown & _).
  - do 7 apply list_elem_of_further. apply list_elem_of_here.
  - reflexivity.
  - injection He as <-.
    apply (Hown "event"); [apply list_elem_of_here | reflexivity].
Defined.

(** C10 fails as stated: the announcer room of performance:announced is not
    the only omission.  performance:reorder leaves out the backstage room,
    so a backstage client that reorders is not handed its own message. *)
Lemma reorder_skips_backstage_sender :
  in_room backstage_client "s1" "backstage:evt1" = true ∧
  (on_message "s1" "performance:reorder" test_payload backstage_client).1 = Ok () ∧
  map em_room
    (emitted backstage_client
       (on_message "s1" "performance:reorder" test_payload backstage_client).2)
  = ["event:evt1"; "judges:evt1"; "sound:evt1"; "announcer:evt1";
     "registration:evt1"; "media:evt1"] ∧
  inbox backstage_client "s1"
    (emitted backstage_client
       (on_message "s1" "performance:reorder" test_payload backstage_client).2) = [].
Proof. vm_compute. done. Qed.

(** ** Malformed payloads *)

(** C7 fails as stated: a payload that is [null] (or [undefined]) makes the
    listener throw on its first field read, before anything is emitted. *)
Lemma null_payload_throws :
  (on_message "s1" "performance:status" VNull two_clients).1 = Throw TypeError ∧
  outbox (on_message "s1" "performance:status" VNull two_clients).2 = [] ∧
  (on_message "s1" "test:notification" VUndefined two_clients).1 = Throw TypeError.
Proof. vm_compute. done. Qed.

(** C7, as the code has it.  On a payload other than [null] and
    [undefined], reading one of the fields the listeners read never fails: a
    missing field, or any such field of a payload that is not an object,
    reads as [undefined].  A dispatch listener completes exactly on the
    dispatchable payloads; the eight rebroadcasting listeners then forward
    the payload as-is under the inbound name, and test:notification sends
    its synthesized notification, to the rooms named after the string form
    of whatever eventId was read.  On every other payload the listener
    throws a [TypeError] before its first emission. *)
Theorem dispatch_outcome socket name roles d st :
  (name, roles) ∈ spec_dispatch_table →
  (d ≠ VUndefined → d ≠ VNull →
   ∀ k, k ∈ read_fields →
        get_prop d k = Ok (field d k) ∧
        (own_prop k (match d with VObj props => props | _ => [] end) = None →
         field d k = VUndefined)) ∧
  (dispatchable name d = true →
   ∃ e,
     ToString (field d "eventId") = Ok e ∧
     (on_message socket name d st).1 = Ok () ∧
     sockets (on_message socket name d st).2 = sockets st ∧
     emitted st (on_message socket name d st).2 =
       map (λ r, Emission (room_name r e) (spec_out_event name)
                   (spec_out_payload name d (field d "eventId"))) roles ∧
     (name ≠ "test:notification" →
      emitted st (on_message socket name d st).2 =
        map (λ r, Emission (room_name r e) name d) roles) ∧
     (name = "test:notification" →
      emitted st (on_message socket name d st).2 =
        [Emission (room_name "event" e) "notification"
           (VObj [("type", VStr "info");
                  ("message", VStr "Test notification from backstage!");
                  ("eventId", field d "eventId")])])) ∧
  (dispatchable name d = false →
   (on_message socket name d st).1 = Throw TypeError ∧
   sockets (on_message socket name d st).2 = sockets st ∧
   outbox (on_message socket name d st).2 = outbox st).
Proof.
  intros Hin. split; [| split].
  - intros Hu Hn k _. split; [by apply get_prop_field |].
    destruct d; try done. simpl. by intros ->.
  - intros Hd.
    destruct (dispatch_emitted socket name roles d st Hin Hd)
      as (e & He & Hok & Hs & Hem).
    exists e. split; [exact He |]. split; [exact Hok |]. split; [exact Hs |].
    split; [exact Hem |]. rewrite Hem. clear Hem Hok Hs Hd.
    table_cases Hin; split; intros Hname; try done; reflexivity.
  - intros Hd. by eapply dispatch_throw.
Qed.

(** A payload that is not an object at all, and so has no eventId. *)
Lemma dispatch_outcome_witness :
  dispatchable "entry:music_updated" (VStr "hello") = true ∧
  (on_message "s1" "entry:music_updated" (VStr "hello") two_clients).1 = Ok () ∧
  map em_room
    (emitted two_clients
       (on_message "s1" "entry:music_updated" (VStr "hello") two_clients).2)
  = map (λ r, room_name r "undefined")
      ["event"; "judges"; "sound"; "backstage"; "announcer"; "registration"; "media"].
Proof.
  split; [reflexivity |].
  destruct (dispatch_outcome "s1" "entry:music_updated"
              ["event"; "judges"; "sound"; "backstage"; "announcer";
               "registration"; "media"] (VStr "hello") two_clients)
    as (_ & Hrun & _).
  - do 3 apply list_elem_of_further. apply list_elem_of_here.
  - destruct (Hrun eq_refl) as (e & He & Hok & _ & Hem & _).
    injection He as <-. split; [exact Hok |].
    rewrite Hem. reflexivity.
Defined.

(** ** What routing depends on *)

(** C8 fails as stated: two status payloads with the same eventId, differing
    only in performanceId, are not routed alike.  The second performanceId
    has no string form, so interpolating it into the log line throws and
    nothing is emitted. *)
Lemma routing_depends_on_logged_field :
  get_prop plain_status "eventId" = get_prop odd_status "eventId" ∧
  map em_room
    (emitted two_clients
       (on_message "s1" "performance:status" plain_status two_clients).2)
  = map (λ r, room_name r "evt1")
      ["event"; "judges"; "sound"; "backstage"; "announcer"; "registration"; "media"] ∧
  (on_message "s1" "performance:status" odd_status two_clients).1 = Throw TypeError ∧
  map em_room
    (emitted two_clients
       (on_message "s1" "performance:status" odd_status two_clients).2) = [].
Proof. vm_compute. done. Qed.

(** C8, as the code has it.  Two dispatchable payloads received under the
    same event name that agree on eventId are emitted to the same rooms,
    whatever their other fields, the sender and the rest of the server
    state. *)
Theorem routing_uses_only_name_and_eventId
    socket1 socket2 name roles d1 d2 st1 st2 :
  (name, roles) ∈ spec_dispatch_table →
  dispatchable name d1 = true →
  dispatchable name d2 = true →
  get_prop d1 "eventId" = get_prop d2 "eventId" →
  map em_room (emitted st1 (on_message socket1 name d1 st1).2) =
  map em_room (emitted st2 (on_message socket2 name d2 st2).2).
Proof.
  intros Hin Hd1 Hd2 Heq.
  destruct (dispatchable_nonnull _ _ Hd1) as [Hu1 Hn1].
  destruct (dispatchable_nonnull _ _ Hd2) as [Hu2 Hn2].
  rewrite !get_prop_field in Heq by done. injection Heq as Heq.
  destruct (dispatch_emitted socket1 name roles d1 st1 Hin Hd1)
    as (e1 & He1 & _ & _ & ->).
  destruct (dispatch_emitted socket2 name roles d2 st2 Hin Hd2)
    as (e2 & He2 & _ & _ & ->).
  rewrite Heq, He2 in He1. injection He1 as ->.
  by rewrite !map_map.
Qed.

Lemma routing_uses_only_name_and_eventId_witness :
  dispatchable "performance:status" plain_status = true ∧
  dispatchable "performance:status" status_payload = true ∧
  get_prop plain_status "eventId" = get_prop status_payload "eventId" ∧
  map em_room
    (emitted two_clients
       (on_message "s1" "performance:status" plain_status two_clients).2) =
  map em_room
    (emitted judge_and_watcher
       (on_message "s2" "performance:status" status_payload judge_and_watcher).2).
Proof.
  split; [reflexivity |]. split; [reflexivity |]. split; [reflexivity |].
  apply (routing_uses_only_name_and_eventId "s1" "s2" "performance:status"
           ["event"; "judges"; "sound"; "backstage"; "announcer";
            "registration"; "media"]);
    [ apply list_elem_of_further, list_elem_of_here
    | reflexivity | reflexivity | reflexivity ].
Defined.

(** ** Joining *)

Ltac open_join :=
  pick_listener;
  cbv [on_join_event on_join_judge on_join_sound on_join_backstage
       on_join_announcer on_join_registration on_join_media tpl].

Ltac run_join :=
  cbv [bind lift ret socket_join update_data console_log fst snd sockets].

Ltac names_cases Hin :=
  repeat (apply elem_of_cons in Hin as [-> | Hin]);
  [ .. | by apply elem_of_nil in Hin ].

Lemma joined_idem room f id socks :
  (∀ da, f (f da) = f da) →
  joined room f id (joined room f id socks) = joined room f id socks.
Proof.
  intros Hf. unfold joined. apply map_eq. intros i.
  destruct (decide (id = i)) as [<- | Hne].
  - rewrite !lookup_alter_eq. destruct (socks !! id) as [[rs da] |]; [| done].
    simpl. unfold with_data. simpl. do 2 f_equal; [| apply Hf].
    by rewrite (assoc_L (∪)), (idemp_L (∪)).
  - by rewrite !lookup_alter_ne.
Qed.

Lemma alter_joined room f g id (socks : gmap string socket) :
  alter (with_data g) id (alter (with_data f) id (alter (add_room room) id socks))
  = joined room (g ∘ f) id socks.
Proof.
  unfold joined. apply map_eq. intros i.
  destruct (decide (id = i)) as [<- | Hne].
  - rewrite !lookup_alter_eq. by destruct (socks !! id) as [[rs da] |].
  - by rewrite !lookup_alter_ne.
Qed.

Lemma alter_joined_event room id (socks : gmap string socket) :
  alter (add_room room) id socks = joined room (λ da, da) id socks.
Proof.
  unfold joined. apply alter_ext. by intros [rs da] _.
Qed.

(** C5.  Handling the same join request twice in a row leaves every
    socket's rooms and attributes as they were after handling it once. *)
Theorem join_idempotent socket name arg st :
  name ∈ join_names →
  sockets (on_message socket name arg (on_message socket name arg st).2).2
  = sockets (on_message socket name arg st).2.
Proof.
  intros Hin. destruct st as [socks n out con]. unfold join_names in Hin.
  names_cases Hin.
  all: open_join; run_join.
  all: repeat (cbv beta iota;
         match goal with
         | |- context [get_prop ?a ?k] =>
             destruct (get_prop a k) as [? | []] eqn:?
         | |- context [ToString ?v] =>
             destruct (ToString v) as [? | []] eqn:?
         end).
  all: cbv beta iota; cbn [sockets]; try reflexivity.
  all: rewrite ?alter_joined, ?alter_joined_event.
  all: apply joined_idem; by intros [? ? ?].
Qed.

Lemma join_idempotent_witness :
  "join:judge" ∈ join_names ∧
  sockets (on_message "s1" "join:judge"
             (VObj [("eventId", VStr "evt1"); ("judgeId", VStr "j1")])
             (on_message "s1" "join:judge"
                (VObj [("eventId", VStr "evt1"); ("judgeId", VStr "j1")])
                two_clients).2).2
  = sockets (on_message "s1" "join:judge"
               (VObj [("eventId", VStr "evt1"); ("judgeId", VStr "j1")])
               two_clients).2.
Proof.
  assert (Hin : "join:judge" ∈ join_names)
    by apply list_elem_of_further, list_elem_of_here.
  split; [exact Hin |].
  exact (join_idempotent "s1" "join:judge"
           (VObj [("eventId", VStr "evt1"); ("judgeId", VStr "j1")])
           two_clients Hin).
Defined.

Lemma role_of_joined room f id socks n out con n' out' con' i :
  (∀ da, role (f da) = role da) →
  role_of (State (joined room f id socks) n out con) i
  = role_of (State socks n' out' con') i.
Proof.
  intros Hf. unfold role_of, joined. simpl.
  destruct (decide (id = i)) as [<- | Hne].
  - rewrite lookup_alter_eq. destruct (socks !! id) as [[rs da] |]; [| done].
    simpl. apply Hf.
  - by rewrite lookup_alter_ne.
Qed.

(** C9.  join:judge never touches the role attribute of any socket; when
    the room name can be built it adds the judges room and records eventId
    and judgeId, nothing else.  Each of the five role joins, by contrast,
    sets role to its own name. *)
Theorem join_judge_keeps_role socket arg st :
  (∀ id, role_of (on_message socket "join:judge" arg st).2 id = role_of st id) ∧
  (∀ s e,
     arg ≠ VUndefined → arg ≠ VNull →
     ToString (field arg "eventId") = Ok e →
     sockets st !! socket = Some s →
     sockets (on_message socket "join:judge" arg st).2 !! socket =
       Some (Socket ({[ "judges:" +:+ e ]} ∪ rooms s)
               (SocketData (role (data s))
                  (Some (field arg "eventId")) (Some (field arg "judgeId"))))) ∧
  (∀ r s,
     r ∈ role_names →
     printable arg = true →
     sockets st !! socket = Some s →
     role_of (on_message socket ("join:" +:+ r) arg st).2 socket = Some (VStr r)).
Proof.
  destruct st as [socks n out con]. split; [| split].
  - intros id. open_join; run_join.
    repeat (cbv beta iota;
      match goal with
      | |- context [get_prop ?a ?k] =>
          destruct (get_prop a k) as [? | []] eqn:?
      | |- context [ToString ?v] =>
          destruct (ToString v) as [? | []] eqn:?
      end).
    all: cbv beta iota; try reflexivity.
    all: rewrite alter_joined; by apply role_of_joined.
  - intros s e Hu Hn He Hs. open_join; run_join.
    rewrite !get_prop_field by done. cbv beta iota. rewrite He. cbv beta iota.
    assert (Hsocks :
              alter (with_data (set_eventId (field arg "eventId"))) socket
                (alter (with_data (set_judgeId (field arg "judgeId"))) socket
                   (alter (add_room ("judges:" +:+ e)) socket socks)) !! socket
              = Some (Socket ({[ "judges:" +:+ e ]} ∪ rooms s)
                  (SocketData (role (data s))
                     (Some (field arg "eventId")) (Some (field arg "judgeId"))))).
    { simpl in Hs. rewrite !lookup_alter_eq, Hs. by destruct s as [rs []]. }
    destruct (ToString (field arg "judgeId")) as [j | []];
      cbv beta iota; cbn [sockets]; apply Hsocks.
  - intros r s Hr Hp Hs. apply printable_Ok in Hp as [e He].
    unfold role_names in Hr. names_cases Hr.
    all: cbv [String.append]; open_join; run_join; rewrite ?He; cbv beta iota;
         rewrite ?He; cbv beta iota.
    all: unfold role_of; simpl in Hs |- *; rewrite !lookup_alter_eq, Hs; done.
Qed.

Lemma join_judge_keeps_role_witness :
  role_of (on_message "s1" "join:judge"
             (VObj [("eventId", VStr "evt1"); ("judgeId", VStr "j1")])
             backstage_client).2 "s1"
  = Some (VStr "backstage") ∧
  role_of (on_message "s1" "join:media" (VStr "evt1") backstage_client).2 "s1"
  = Some (VStr "media").
Proof.
  destruct (join_judge_keeps_role "s1"
              (VObj [("eventId", VStr "evt1"); ("judgeId", VStr "j1")])
              backstage_client) as (Hkeep & _ & _).
  destruct (join_judge_keeps_role "s1" (VStr "evt1") backstage_client)
    as (_ & _ & Hset).
  split.
  - rewrite Hkeep. reflexivity.
  - apply (Hset "media"
             (Socket ({["backstage:evt1"]} ∪ {["s1"]})
                (SocketData (Some (VStr "backstage")) (Some (VStr "evt1")) None))).
    + do 4 apply list_elem_of_further. apply list_elem_of_here.
    + reflexivity.
    + reflexivity.
Defined.

(** ** Event names without a listener *)

Ltac absurd_member Hin :=
  repeat (apply elem_of_cons in Hin as [Hin | Hin]; [discriminate Hin |]);
  by apply elem_of_nil in Hin.

Lemma listener_for_None socket name :
  name ∉ (listeners socket).*1 → listener_for name (listeners socket) = None.
Proof.
  generalize (listeners socket). intros tbl.
  induction tbl as [| [n h] tbl IH]; intros Hnot; [done |].
  simpl. destruct (String.eqb_spec name n) as [-> | Hne].
  - exfalso. apply Hnot. apply list_elem_of_here.
  - apply IH. intros Hin. apply Hnot. by apply list_elem_of_further.
Qed.

(** C6, as the code has it.  An event a client can send (its name is not
    one socket.io reserves) whose name is none of the seven join names, none
    of the nine names of the dispatch table (test:notification among them),
    and neither disconnect nor error has no listener: receiving it changes
    nothing and throws nothing. *)
Theorem unknown_event_is_ignored socket name arg st :
  name ∉ reserved_names →
  name ∉ join_names →
  name ∉ spec_dispatch_table.*1 →
  name ≠ "disconnect" → name ≠ "error" →
  on_message socket name arg st = (Ok (), st).
Proof.
  intros _ Hj Ht Hd He. unfold on_message.
  rewrite listener_for_None; [done |].
  intros Hin. cbv [listeners fmap list_fmap fst] in Hin.
  repeat (apply elem_of_cons in Hin as [-> | Hin]);
    [ .. | by apply elem_of_nil in Hin ].
  all: first
    [ done
    | solve [ apply Hj; unfold join_names;
              repeat first [ apply list_elem_of_here | apply list_elem_of_further ] ]
    | solve [ apply Ht; cbv [spec_dispatch_table fmap list_fmap fst];
              repeat first [ apply list_elem_of_here | apply list_elem_of_further ] ] ].
Qed.

Lemma unknown_event_is_ignored_witness :
  on_message "s1" "performance:cancel" test_payload two_clients
  = (Ok (), two_clients).
Proof.
  apply unknown_event_is_ignored.
  - intros Hin. unfold reserved_names in Hin. absurd_member Hin.
  - intros Hin. unfold join_names in Hin. absurd_member Hin.
  - intros Hin. cbv [spec_dispatch_table fmap list_fmap fst] in Hin.
    absurd_member Hin.
  - discriminate.
  - discriminate.
Defined.

Lemma in_room_ext st st' id room :
  sockets st = sockets st' → in_room st id room = in_room st' id room.
Proof. unfold in_room. by intros ->. Qed.

Lemma join_not_inert name : name ∈ join_names → ¬ inert name.
Proof.
  intros Hin Hinert. unfold join_names in Hin. names_cases Hin.
  2: destruct (Hinert "s1" judge_payload two_clients) as (_ & Hs & _);
     apply (in_room_ext _ _ "s1" "judges:evt1") in Hs;
     vm_compute in Hs; discriminate.
  all: destruct (Hinert "s1" (VStr "evt1") two_clients) as (_ & Hs & _).
  - apply (in_room_ext _ _ "s1" "event:evt1") in Hs. vm_compute in Hs. discriminate.
  - apply (in_room_ext _ _ "s1" "sound:evt1") in Hs. vm_compute in Hs. discriminate.
  - apply (in_room_ext _ _ "s1" "backstage:evt1") in Hs. vm_compute in Hs. discriminate.
  - apply (in_room_ext _ _ "s1" "announcer:evt1") in Hs. vm_compute in Hs. discriminate.
  - apply (in_room_ext _ _ "s1" "registration:evt1") in Hs. vm_compute in Hs. discriminate.
  - apply (in_room_ext _ _ "s1" "media:evt1") in Hs. vm_compute in Hs. discriminate.
Qed.

Lemma dispatch_not_inert name : name ∈ spec_dispatch_table.*1 → ¬ inert name.
Proof.
  intros Hin Hinert. cbv [spec_dispatch_table fmap list_fmap fst] in Hin.
  names_cases Hin.
  all: destruct (Hinert "s1" test_payload two_clients) as (_ & _ & Ho).
  all: vm_compute in Ho; discriminate.
Qed.

(** C6 fails as stated: whichever five names are taken for the join names
    and whichever eight for the dispatch names, some other name still has a
    listener that joins a room or broadcasts.  The source registers seven
    join listeners and nine dispatch listeners. *)
Lemma five_joins_and_eight_dispatches_miss_a_listener :
  ¬ ∃ joins dispatch : list string,
      length joins = 5 ∧ length dispatch = 8 ∧
      ∀ name, name ∉ joins → name ∉ dispatch →
              name ≠ "disconnect" → name ≠ "error" → inert name.
Proof.
  intros (joins & dispatch & Hj & Hd & Hall).
  assert (Hcover : ∀ name, name ∈ (join_names ++ spec_dispatch_table.*1)%list →
                           name ∈ (joins ++ dispatch)%list).
  { intros name Hin.
    destruct (decide (name ∈ joins)) as [? | Hnj]; [by apply elem_of_app; left |].
    destruct (decide (name ∈ dispatch)) as [? | Hnd]; [by apply elem_of_app; right |].
    exfalso.
    assert (Hactive : ¬ inert name).
    { apply elem_of_app in Hin as [Hin | Hin];
        [by apply join_not_inert | by apply dispatch_not_inert]. }
    apply Hactive, Hall; try done.
    all: intros ->; cbv [join_names spec_dispatch_table fmap list_fmap fst app] in Hin.
    all: absurd_member Hin. }
  assert (Hnodup : NoDup (join_names ++ spec_dispatch_table.*1)%list).
  { apply (bool_decide_unpack _). vm_compute. exact I. }
  pose proof (submseteq_length _ _ (NoDup_submseteq _ _ Hnodup Hcover)) as Hlen.
  rewrite !length_app, Hj, Hd in Hlen. simpl in Hlen. lia.
Qed.

(** * What the listeners leave alone *)

Ltac crunch :=
  repeat (cbv beta iota;
    match goal with
    | |- context [get_prop ?a ?k] =>
        destruct (get_prop a k) as [? | []] eqn:?
    | |- context [ToString ?v] =>
        destruct (ToString v) as [? | []] eqn:?
    end);
  cbv beta iota.

Ltac open_any :=
  pick_listener;
  cbv [on_join_event on_join_judge on_join_sound on_join_backstage
       on_join_announcer on_join_registration on_join_media
       on_performance_reorder on_performance_status on_performance_music_cue
       on_entry_music_updated on_entry_video_updated on_event_control
       on_presence_update on_performance_announced on_test_notification
       on_disconnect on_error relay tpl_field tpl];
  cbv [bind lift ret socket_join update_data io_to_emit console_log
       console_error engine_clientsCount fst snd];
  crunch.

Ltac grows :=
  cbn [outbox console sockets clientsCount];
  first [ by exists []; rewrite app_nil_r
        | rewrite <- ?app_assoc; by eexists ].

Ltac is_member :=
  cbv [join_names spec_dispatch_table fmap list_fmap fst];
  repeat first [ apply list_elem_of_here | apply list_elem_of_further ].

Ltac same_or_joined :=
  cbn [sockets];
  first [ by left
        | right; split; [ solve [is_member] |];
          rewrite ?alter_joined, ?alter_joined_event; by eexists _, _ ].

(** The shape of every run: the client count is kept, the outbox and the
    console are extended, and the socket table is either kept or changed by
    one join of the receiving socket. *)
Lemma on_message_shape socket name arg st :
  clientsCount (on_message socket name arg st).2 = clientsCount st ∧
  (∃ out', outbox (on_message socket name arg st).2 = (outbox st ++ out')%list ∧
           (out' = [] ∨ name ∈ spec_dispatch_table.*1)) ∧
  (∃ con', console (on_message socket name arg st).2 = (console st ++ con')%list) ∧
  (sockets (on_message socket name arg st).2 = sockets st ∨
   (name ∈ join_names ∧
    ∃ room f, sockets (on_message socket name arg st).2
              = joined room f socket (sockets st))).
Proof.
  destruct (decide (name ∈ (listeners socket).*1)) as [Hin | Hnot].
  - destruct st as [socks n out con].
    cbv [listeners fmap list_fmap fst] in Hin. names_cases Hin.
    all: open_any.
    all: split; [reflexivity |].
    all: split; [| split; [grows | same_or_joined]].
    all: cbn [outbox].
    all: first [ by exists []; rewrite app_nil_r; split; [| left]
               | rewrite <- ?app_assoc; eexists; split; [reflexivity |];
                 right; solve [is_member] ].
  - unfold on_message. rewrite listener_for_None by done. simpl.
    split; [done |]. split; [| split; [| by left]].
    + exists []. rewrite app_nil_r. split; [done | by left].
    + exists []. by rewrite app_nil_r.
Qed.

(** X1.  Whatever the event name and argument, a listener keeps the client
    count and the set of connected sockets, only appends to the outbox and
    to the console, changes the socket table only under a join name, and
    emits only under a name of the dispatch table. *)
Theorem listeners_frame socket name arg st :
  clientsCount (on_message socket name arg st).2 = clientsCount st ∧
  dom (sockets (on_message socket name arg st).2) = dom (sockets st) ∧
  outbox st `prefix_of` outbox (on_message socket name arg st).2 ∧
  console st `prefix_of` console (on_message socket name arg st).2 ∧
  (name ∉ join_names → sockets (on_message socket name arg st).2 = sockets st) ∧
  (name ∉ spec_dispatch_table.*1 →
   outbox (on_message socket name arg st).2 = outbox st).
Proof.
  destruct (on_message_shape socket name arg st)
    as (Hn & (out' & Hout & Hd) & (con' & Hcon) & Hs).
  split; [exact Hn |]. split; [| split; [| split; [| split]]].
  - destruct Hs as [-> | (_ & room & f & ->)]; [done |].
    unfold joined. apply dom_alter_L.
  - rewrite Hout. by exists out'.
  - rewrite Hcon. by exists con'.
  - intros Hnj. by destruct Hs as [-> | (? & _)].
  - intros Hnd. rewrite Hout. destruct Hd as [-> | ?]; [| done].
    by rewrite app_nil_r.
Qed.

Lemma listeners_frame_witness :
  sockets (on_message "s1" "disconnect" (VStr "transport close") backstage_client).2
  = sockets backstage_client ∧
  outbox (on_message "s1" "disconnect" (VStr "transport close") backstage_client).2
  = outbox backstage_client.
Proof.
  destruct (listeners_frame "s1" "disconnect" (VStr "transport close")
              backstage_client) as (_ & _ & _ & _ & Hs & Ho).
  split.
  - apply Hs. intros Hin. unfold join_names in Hin. absurd_member Hin.
  - apply Ho. intros Hin. cbv [spec_dispatch_table fmap list_fmap fst] in Hin.
    absurd_member Hin.
Defined.



(** * Joining, then receiving *)

Lemma in_room_joined room f id socks n out con s :
  socks !! id = Some s →
  in_room (State (joined room f id socks) n out con) id room = true.
Proof.
  intros Hs. unfold in_room, joined. simpl. rewrite lookup_alter_eq, Hs. simpl.
  apply bool_decide_eq_true. apply elem_of_union_l. by apply elem_of_singleton.
Qed.

(** A join request with an identifier that has a string form puts a
    connected socket in the room of that kind and identifier. *)
Lemma join_enters_room socket kind eid e st s :
  kind ∈ room_kinds →
  ToString eid = Ok e →
  sockets st !! socket = Some s →
  (on_message socket (join_request kind eid).1 (join_request kind eid).2 st).1
    = Ok () ∧
  in_room (on_message socket (join_request kind eid).1 (join_request kind eid).2 st).2
    socket (room_name kind e) = true.
Proof.
  intros Hk He Hs. destruct st as [socks n out con]. simpl in Hs.
  unfold room_kinds in Hk. names_cases Hk.
  all: cbv [join_request String.eqb Ascii.eqb Bool.eqb String.append fst snd].
  all: pick_listener;
       cbv [on_join_event on_join_judge on_join_sound on_join_backstage
            on_join_announcer on_join_registration on_join_media tpl];
       cbv [bind lift ret socket_join update_data console_log fst snd
            get_prop own_prop String.eqb Ascii.eqb Bool.eqb default from_option id];
       rewrite ?He; cbv beta iota; rewrite ?He; cbv beta iota.
  all: cbn [ToString]; cbv beta iota.
  all: split; [reflexivity |].
  all: rewrite ?alter_joined, ?alter_joined_event.
  all: by eapply in_room_joined.
Qed.

Lemma in_room_kept socket name arg st id room :
  in_room st id room = true →
  in_room (on_message socket name arg st).2 id room = true.
Proof.
  unfold in_room. intros Hin.
  destruct (sockets st !! id) as [s |] eqn:Hs; [| done].
  destruct (on_message_shape socket name arg st)
    as (_ & _ & _ & [-> | (_ & r & f & ->)]).
  - by rewrite Hs.
  - unfold joined. destruct (decide (socket = id)) as [<- | Hne].
    + rewrite lookup_alter_eq, Hs. simpl. apply bool_decide_eq_true.
      apply bool_decide_eq_true in Hin. by apply elem_of_union_r.
    + by rewrite lookup_alter_ne, Hs.
Qed.

Lemma in_room_run_events evs st id room :
  in_room st id room = true → in_room (run_events evs st) id room = true.
Proof.
  unfold run_events. revert st.
  induction evs as [| ev evs IH]; intros st Hin; [done |].
  simpl. apply IH. by apply in_room_kept.
Qed.



Lemma inbox_of_row st id e ev p roles :
  inbox st id (map (λ r, Emission (room_name r e) ev p) roles)
  = replicate (length (List.filter (λ r, in_room st id (room_name r e)) roles))
      (ev, p).
Proof.
  unfold inbox. induction roles as [| r roles IH]; [done |].
  simpl. destruct (in_room st id (room_name r e)); simpl; by rewrite IH.
Qed.

(** X4.  Each emit of a row is a broadcast of its own: a socket is handed
    one copy of a dispatched message for every room of the row it is in, so
    a socket in two of the rooms gets the message twice. *)
Theorem one_copy_per_room socket name roles d st id :
  (name, roles) ∈ spec_dispatch_table →
  dispatchable name d = true →
  ∃ e,
    ToString (field d "eventId") = Ok e ∧
    inbox st id (emitted st (on_message socket name d st).2)
    = replicate
        (length (List.filter (λ r, in_room st id (room_name r e)) roles))
        (spec_out_event name, spec_out_payload name d (field d "eventId")).
Proof.
  intros Hin Hd.
  destruct (dispatch_emitted socket name roles d st Hin Hd)
    as (e & He & _ & _ & ->).
  exists e. split; [exact He |]. apply inbox_of_row.
Qed.

Lemma one_copy_per_room_witness :
  inbox announcer_and_watcher "s1"
    (emitted announcer_and_watcher
       (on_message "s2" "performance:status" status_payload
          announcer_and_watcher).2)
  = [("performance:status", status_payload);
     ("performance:status", status_payload)].
Proof.
  destruct (one_copy_per_room "s2" "performance:status"
              ["event"; "judges"; "sound"; "backstage"; "announcer";
               "registration"; "media"]
              status_payload announcer_and_watcher "s1") as (e & He & ->).
  - apply list_elem_of_further, list_elem_of_here.
  - reflexivity.
  - injection He as <-. vm_compute. reflexivity.
Defined.

(** X5.  A socket that joins a second role keeps the room of the first:
    rooms accumulate while the recorded role and eventId are overwritten, so
    after the two joins the socket is in both role rooms but its attributes
    name only the second. *)
Theorem second_role_join_keeps_first_room socket r1 r2 eid1 eid2 e1 e2 st s :
  r1 ∈ role_names → r2 ∈ role_names →
  ToString eid1 = Ok e1 → ToString eid2 = Ok e2 →
  sockets st !! socket = Some s →
  in_room (on_message socket ("join:" +:+ r2) eid2
             (on_message socket ("join:" +:+ r1) eid1 st).2).2
    socket (room_name r1 e1) = true ∧
  in_room (on_message socket ("join:" +:+ r2) eid2
             (on_message socket ("join:" +:+ r1) eid1 st).2).2
    socket (room_name r2 e2) = true ∧
  data <$> sockets (on_message socket ("join:" +:+ r2) eid2
                      (on_message socket ("join:" +:+ r1) eid1 st).2).2 !! socket
  = Some (SocketData (Some (VStr r2)) (Some eid2) (judgeId (data s))).
Proof.
  intros H1 H2 He1 He2 Hs. destruct st as [socks n out con]. simpl in Hs.
  unfold role_names in H1, H2. names_cases H1; names_cases H2.
  all: cbv [String.append]; unfold on_message.
  all: repeat match goal with
         | |- context [listener_for ?n (listeners ?s)] =>
             let r := eval cbv [listener_for listeners String.eqb Ascii.eqb
                                Bool.eqb]
                      in (listener_for n (listeners s)) in
             change (listener_for n (listeners s)) with r
         end.
  all: cbv [on_join_sound on_join_backstage on_join_announcer
            on_join_registration on_join_media tpl];
       cbv [bind lift ret socket_join update_data console_log fst snd];
       rewrite ?He1, ?He2; cbv beta iota; rewrite ?He1, ?He2; cbv beta iota;
       rewrite ?He1, ?He2; cbv beta iota; rewrite ?He1, ?He2; cbv beta iota.
  all: unfold in_room; cbn [sockets]; rewrite !lookup_alter_eq, Hs;
       destruct s as [rs [ro ev ju]]; cbn.
  all: split; [| split; [| reflexivity]]; apply bool_decide_eq_true.
  all: cbv [room_name String.append];
       rewrite !elem_of_union, !elem_of_singleton; by eauto.
Qed.

Lemma second_role_join_keeps_first_room_witness :
  in_room (on_message "s1" "join:media" (VStr "evt2")
             (on_message "s1" "join:sound" (VStr "evt1") two_clients).2).2
    "s1" "sound:evt1" = true ∧
  data <$> sockets (on_message "s1" "join:media" (VStr "evt2")
                      (on_message "s1" "join:sound" (VStr "evt1") two_clients).2).2
             !! "s1"
  = Some (SocketData (Some (VStr "media")) (Some (VStr "evt2")) None).
Proof.
  destruct (second_role_join_keeps_first_room "s1" "sound" "media"
              (VStr "evt1") (VStr "evt2") "evt1" "evt2" two_clients
              (new_socket "s1")) as (H1 & _ & H3).
  - apply list_elem_of_here.
  - do 4 apply list_elem_of_further. apply list_elem_of_here.
  - reflexivity.
  - reflexivity.
  - reflexivity.
  - split; [exact H1 | exact H3].
Defined.

(** * Join requests that go wrong *)

(** X6.  join:judge expects an object.  Given anything else that is not
    [null] or [undefined] (for instance the bare identifier the other joins
    take), it completes all the same: the socket enters the room
    judges:undefined and both eventId and judgeId are recorded as
    [undefined]. *)
Theorem join_judge_bare_argument socket arg st s :
  arg ≠ VUndefined → arg ≠ VNull → (∀ props, arg ≠ VObj props) →
  sockets st !! socket = Some s →
  (on_message socket "join:judge" arg st).1 = Ok () ∧
  sockets (on_message socket "join:judge" arg st).2 !! socket
  = Some (Socket ({[ "judges:undefined" ]} ∪ rooms s)
            (SocketData (role (data s)) (Some VUndefined) (Some VUndefined))).
Proof.
  intros Hu Hn Ho Hs. destruct st as [socks n out con]. simpl in Hs.
  destruct arg as [ | | b | z | str | elems | props ]; try done;
    try (by destruct (Ho props)).
  all: pick_listener; cbv [on_join_judge tpl];
       cbv [bind lift ret socket_join update_data console_log fst snd
            get_prop ToString].
  all: split; [reflexivity |].
  all: cbn [sockets]; rewrite !lookup_alter_eq, Hs; by destruct s as [rs []].
Qed.

Lemma join_judge_bare_argument_witness :
  (on_message "s1" "join:judge" (VStr "evt1") two_clients).1 = Ok () ∧
  in_room (on_message "s1" "join:judge" (VStr "evt1") two_clients).2
    "s1" "judges:undefined" = true ∧
  in_room (on_message "s1" "join:judge" (VStr "evt1") two_clients).2
    "s1" "judges:evt1" = false.
Proof.
  assert (Hu : VStr "evt1" ≠ VUndefined) by discriminate.
  assert (Hn : VStr "evt1" ≠ VNull) by discriminate.
  assert (Ho : ∀ props, VStr "evt1" ≠ VObj props) by (intros; discriminate).
  destruct (join_judge_bare_argument "s1" (VStr "evt1") two_clients
              (new_socket "s1") Hu Hn Ho eq_refl) as (Hok & Hs).
  split; [exact Hok |]. unfold in_room. rewrite Hs.
  split; vm_compute; reflexivity.
Defined.

(** X7.  A join that takes the bare identifier fails exactly when the
    identifier has no string form, and then it has done nothing at all: no
    room joined, no attribute written, no log line. *)
Theorem plain_join_fails_cleanly socket kind eid st :
  kind ∈ plain_join_kinds →
  (printable eid = true →
   (on_message socket ("join:" +:+ kind) eid st).1 = Ok ()) ∧
  (printable eid = false →
   on_message socket ("join:" +:+ kind) eid st = (Throw TypeError, st)).
Proof.
  intros Hk. destruct st as [socks n out con].
  unfold plain_join_kinds in Hk. names_cases Hk.
  all: cbv [String.append]; unfold printable.
  all: pick_listener;
       cbv [on_join_event on_join_sound on_join_backstage on_join_announcer
            on_join_registration on_join_media tpl];
       cbv [bind lift ret socket_join update_data console_log fst snd].
  all: destruct (ToString eid) as [e | []]; cbv beta iota; by split.
Qed.

Lemma plain_join_fails_cleanly_witness :
  on_message "s1" "join:backstage" odd_identifier two_clients
  = (Throw TypeError, two_clients).
Proof.
  destruct (plain_join_fails_cleanly "s1" "backstage" odd_identifier two_clients)
    as [_ Hthrow].
  - do 2 apply list_elem_of_further. apply list_elem_of_here.
  - apply Hthrow. reflexivity.
Defined.

(** X8.  join:judge can fail half way.  When the eventId has a string form
    but the judgeId has none, the socket has already entered the judges
    room and both attributes are recorded when the log line throws; nothing
    is logged. *)
Theorem join_judge_fails_after_joining socket arg e st s :
  arg ≠ VUndefined → arg ≠ VNull →
  ToString (field arg "eventId") = Ok e →
  printable (field arg "judgeId") = false →
  sockets st !! socket = Some s →
  (on_message socket "join:judge" arg st).1 = Throw TypeError ∧
  sockets (on_message socket "join:judge" arg st).2 !! socket
  = Some (Socket ({[ "judges:" +:+ e ]} ∪ rooms s)
            (SocketData (role (data s))
               (Some (field arg "eventId")) (Some (field arg "judgeId")))) ∧
  console (on_message socket "join:judge" arg st).2 = console st.
Proof.
  intros Hu Hn He Hj Hs. destruct st as [socks n out con]. simpl in Hs.
  unfold printable in Hj.
  pick_listener; cbv [on_join_judge tpl];
    cbv [bind lift ret socket_join update_data console_log fst snd].
  rewrite !get_prop_field by done. cbv beta iota. rewrite He. cbv beta iota.
  destruct (ToString (field arg "judgeId")) as [j | []]; [done |].
  cbv beta iota. split; [reflexivity |]. split; [| reflexivity].
  cbn [sockets]. rewrite !lookup_alter_eq, Hs. by destruct s as [rs []].
Qed.

Lemma join_judge_fails_after_joining_witness :
  (on_message "s1" "join:judge" odd_judge two_clients).1 = Throw TypeError ∧
  in_room (on_message "s1" "join:judge" odd_judge two_clients).2
    "s1" "judges:evt1" = true.
Proof.
  assert (Hu : odd_judge ≠ VUndefined) by discriminate.
  assert (Hn : odd_judge ≠ VNull) by discriminate.
  destruct (join_judge_fails_after_joining "s1" odd_judge "evt1" two_clients
              (new_socket "s1") Hu Hn eq_refl eq_refl eq_refl)
    as (Hthrow & Hs & _).
  split; [exact Hthrow |]. unfold in_room. rewrite Hs. vm_compute. reflexivity.
Defined.

(** * Logging *)

(** X9.  Every listener that completes has written exactly one entry to the
    console, whatever the event; an event without a listener writes
    none. *)
Theorem completed_listener_logs_once socket name arg st :
  (on_message socket name arg st).1 = Ok () →
  (name ∈ (listeners socket).*1 →
   ∃ entry, console (on_message socket name arg st).2
            = (console st ++ [entry])%list) ∧
  (name ∉ (listeners socket).*1 →
   console (on_message socket name arg st).2 = console st).
Proof.
  intros Hok. split.
  - intros Hin. destruct st as [socks n out con].
    cbv [listeners fmap list_fmap fst] in Hin. names_cases Hin.
    all: revert Hok; open_any; intros Hok; try discriminate Hok.
    all: cbn [console]; by eexists.
  - intros Hnot. unfold on_message. by rewrite listener_for_None.
Qed.

Lemma completed_listener_logs_once_witness :
  ∃ entry,
    console (on_message "s1" "error" (VStr "boom") two_clients).2 = [entry].
Proof.
  destruct (completed_listener_logs_once "s1" "error" (VStr "boom") two_clients
              eq_refl) as [Hlog _].
  apply Hlog. cbv [listeners fmap list_fmap fst].
  do 17 apply list_elem_of_further. apply list_elem_of_here.
Defined.

(** * The allowed origins *)

Lemma env_truthy_delete_empty (env : gmap string string) k k' :
  env !! k = Some "" → env_truthy (delete k env) k' = env_truthy env k'.
Proof.
  intros Hk. unfold env_truthy. destruct (decide (k = k')) as [<- | Hne].
  - by rewrite lookup_delete_eq, Hk.
  - by rewrite lookup_delete_ne.
Qed.

(** X10.  An environment variable set to the empty string counts as unset:
    removing it changes neither the origins nor what is logged.  In
    particular an empty ALLOWED_ORIGINS gives the default list, not an
    empty one. *)
Theorem empty_variable_counts_as_unset (env : gmap string string) k :
  env !! k = Some "" →
  getAllowedOrigins (delete k env) = getAllowedOrigins env.
Proof.
  intros Hk. unfold getAllowedOrigins.
  by rewrite !(env_truthy_delete_empty env k _ Hk).
Qed.

Lemma empty_variable_counts_as_unset_witness :
  getAllowedOrigins (delete "ALLOWED_ORIGINS" railway_env)
  = getAllowedOrigins railway_env ∧
  (getAllowedOrigins railway_env).1
  = ["http://localhost:3000"; "https://localhost:3000";
     "https://eodsa.up.railway.app"; "https://eodsa.vercel.app"].
Proof.
  split.
  - apply (empty_variable_counts_as_unset railway_env "ALLOWED_ORIGINS").
    reflexivity.
  - reflexivity.
Defined.

Lemma split_comma_length s :
  length (split_comma s).2 = count_commas s.
Proof.
  unfold count_commas. induction s as [| c s IH]; [done |].
  simpl. destruct (split_comma s) as [seg segs]. simpl in IH.
  destruct (Ascii.eqb c comma); simpl; by rewrite IH.
Qed.

Lemma split_length s : length (split s) = S (count_commas s).
Proof.
  unfold split. rewrite <- split_comma_length.
  by destruct (split_comma s).
Qed.

(** X11.  A non-empty ALLOWED_ORIGINS decides alone: the result has one
    entry per comma-separated segment (empty segments included), nothing is
    logged, the localhost defaults are not added, and the other variables
    play no part. *)
Theorem allowed_origins_override (env : gmap string string) v :
  env !! "ALLOWED_ORIGINS" = Some v → v ≠ "" →
  (getAllowedOrigins env).1 = map trim (split v) ∧
  length (getAllowedOrigins env).1 = S (count_commas v) ∧
  (getAllowedOrigins env).2 = [] ∧
  (∀ env' : gmap string string,
     env' !! "ALLOWED_ORIGINS" = Some v →
     getAllowedOrigins env' = getAllowedOrigins env).
Proof.
  intros Hv Hne.
  assert (Ht : ∀ env' : gmap string string,
            env' !! "ALLOWED_ORIGINS" = Some v →
            getAllowedOrigins env' = (map trim (split v), [])).
  { intros env' Hv'. unfold getAllowedOrigins, env_truthy. rewrite Hv'.
    by destruct v. }
  rewrite (Ht env Hv). simpl. split; [done |]. split; [| split; [done |]].
  - by rewrite length_map, split_length.
  - intros env' Hv'. by rewrite (Ht env' Hv').
Qed.

Lemma allowed_origins_override_witness :
  (getAllowedOrigins production_env).1
  = ["https://eodsa.vercel.app"; "https://www.avalondance.co.za"] ∧
  (getAllowedOrigins production_env).2 = [].
Proof.
  assert (Hne : "https://eodsa.vercel.app, https://www.avalondance.co.za" ≠ "")
    by discriminate.
  destruct (allowed_origins_override production_env
              "https://eodsa.vercel.app, https://www.avalondance.co.za"
              eq_refl Hne) as (H1 & _ & H3 & _).
  split; [| exact H3]. rewrite H1. reflexivity.
Defined.

(** X12.  Without ALLOWED_ORIGINS the result is the two localhost origins
    followed, in this order, by https:// and the Railway domain, https://
    and the Vercel URL, and the front-end URL exactly as given (no scheme is
    added to it), each only when its variable is set and not empty.  So the
    list has two to five entries, nothing else is ever allowed, and the one
    log entry shows the list returned. *)
Theorem default_origins_listing (env : gmap string string) :
  env_truthy env "ALLOWED_ORIGINS" = None →
  (getAllowedOrigins env).1
  = (default_origins
     ++ pushed "https://" (env_truthy env "RAILWAY_PUBLIC_DOMAIN")
     ++ pushed "https://" (env_truthy env "VERCEL_URL")
     ++ pushed "" (env_truthy env "FRONTEND_URL"))%list ∧
  (2 ≤ length (getAllowedOrigins env).1 ≤ 5)%nat ∧
  (getAllowedOrigins env).2
  = [Log [LStr "🌐 Allowed CORS origins:";
          LVal (VArr (map VStr (getAllowedOrigins env).1))]].
Proof.
  intros Hnone. unfold getAllowedOrigins. rewrite Hnone.
  destruct (env_truthy env "RAILWAY_PUBLIC_DOMAIN") as [r |];
    destruct (env_truthy env "VERCEL_URL") as [v |];
    destruct (env_truthy env "FRONTEND_URL") as [f |];
    simpl; (split; [reflexivity |]); (split; [lia | reflexivity]).
Qed.

Lemma default_origins_listing_witness :
  (getAllowedOrigins railway_env).1
  = ["http://localhost:3000"; "https://localhost:3000";
     "https://eodsa.up.railway.app"; "https://eodsa.vercel.app"].
Proof.
  destruct (default_origins_listing railway_env eq_refl) as (H1 & _ & _).
  rewrite H1. reflexivity.
Defined.

(** ** Trimming *)

Lemma shorter_ind (P : list Ascii.ascii → Prop) :
  (∀ l, (∀ l', (length l' < length l)%nat → P l') → P l) → ∀ l, P l.
Proof.
  intros Hstep l. remember (length l) as n eqn:Hn. revert l Hn.
  induction n as [n IH] using lt_wf_ind. intros l ->.
  apply Hstep. intros l' Hlt. by eapply IH.
Qed.

(** Stripping removes a prefix, and what is left does not begin with an
    ASCII white-space byte. *)
Lemma strip_ws_suffix two three l : strip_ws two three l `suffix_of` l.
Proof.
  induction l as [l IH] using shorter_ind.
  destruct l as [| c1 r1]; [done |]. simpl.
  destruct (Ascii.is_space c1).
  { apply suffix_cons_r, IH. simpl. lia. }
  destruct r1 as [| c2 r2]; [done |].
  destruct (two c1 c2).
  { do 2 apply suffix_cons_r. apply IH. simpl. lia. }
  destruct r2 as [| c3 r3]; [done |].
  destruct (three c1 c2 c3); [| done].
  do 3 apply suffix_cons_r. apply IH. simpl. lia.
Qed.

Lemma strip_ws_head two three l c r :
  strip_ws two three l = c :: r → Ascii.is_space c = false.
Proof.
  induction l as [l IH] using shorter_ind.
  destruct l as [| c1 r1]; [done |]. simpl.
  destruct (Ascii.is_space c1) eqn:H1.
  { apply IH. simpl. lia. }
  destruct r1 as [| c2 r2]; [by intros [= <- <-] |].
  destruct (two c1 c2).
  { apply IH. simpl. lia. }
  destruct r2 as [| c3 r3]; [by intros [= <- <-] |].
  destruct (three c1 c2 c3); [| by intros [= <- <-]].
  apply IH. simpl. lia.
Qed.

Lemma trim_bytes s :
  String.list_ascii_of_string (trim s)
  = rev (strip_ws (λ c2 c1, ws2 c1 c2) (λ c3 c2 c1, ws3 c1 c2 c3)
           (rev (strip_ws ws2 ws3 (String.list_ascii_of_string s)))).
Proof.
  unfold trim, trimEnd, trimStart.
  by rewrite !String.list_ascii_of_string_of_list_ascii.
Qed.

Lemma last_cons_default (a d d' : Ascii.ascii) l :
  List.last (a :: l) d = List.last (a :: l) d'.
Proof.
  revert a. induction l as [| b l IH]; intros a; [done |].
  change (List.last (b :: l) d = List.last (b :: l) d'). apply IH.
Qed.

Lemma rev_cons_last (c : Ascii.ascii) r :
  ∃ t, rev (c :: r) = List.last r c :: t.
Proof.
  revert c. induction r as [| a r IH]; intros c; [by exists [] |].
  destruct (IH a) as [t Ht]. exists (t ++ [c])%list.
  change (rev (c :: a :: r)) with (rev (a :: r) ++ [c])%list. rewrite Ht.
  simpl. f_equal. destruct r as [| b r]; [done |].
  apply last_cons_default.
Qed.

Lemma split_comma_no_comma s seg :
  seg ∈ split s → comma ∉ String.list_ascii_of_string seg.
Proof.
  unfold split. revert seg. induction s as [| c s IH]; intros seg Hin.
  - apply list_elem_of_singleton in Hin as ->. apply not_elem_of_nil.
  - simpl in Hin. destruct (split_comma s) as [h t].
    destruct (Ascii.eqb c comma) eqn:Hc.
    + apply elem_of_cons in Hin as [-> | Hin]; [apply not_elem_of_nil |].
      by apply IH.
    + apply elem_of_cons in Hin as [-> | Hin].
      * simpl. intros Hin. apply elem_of_cons in Hin as [<- | Hin].
        -- by rewrite Ascii.eqb_refl in Hc.
        -- by apply (IH h); [apply list_elem_of_here |].
      * apply IH. by apply list_elem_of_further.
Qed.

Lemma elem_of_rev (x : Ascii.ascii) l : x ∈ rev l ↔ x ∈ l.
Proof. rewrite !list_elem_of_In. symmetry. apply in_rev. Qed.

Lemma strip_ws_elem two three l x : x ∈ strip_ws two three l → x ∈ l.
Proof.
  intros Hin. destruct (strip_ws_suffix two three l) as [k Hk].
  rewrite Hk. apply elem_of_app. by right.
Qed.

Lemma trim_bytes_subset s c :
  c ∈ String.list_ascii_of_string (trim s) → c ∈ String.list_ascii_of_string s.
Proof.
  rewrite trim_bytes. intros Hin. apply (proj1 (elem_of_rev _ _)) in Hin.
  apply strip_ws_elem in Hin. apply (proj1 (elem_of_rev _ _)) in Hin.
  by apply strip_ws_elem in Hin.
Qed.

Lemma trim_ends s c r :
  String.list_ascii_of_string (trim s) = c :: r →
  Ascii.is_space c = false ∧ Ascii.is_space (List.last r c) = false.
Proof.
  rewrite trim_bytes.
  set (inner := strip_ws ws2 ws3 (String.list_ascii_of_string s)).
  set (outer := strip_ws _ _ (rev inner)). intros Hrev. split.
  - destruct (strip_ws_suffix (λ c2 c1, ws2 c1 c2) (λ c3 c2 c1, ws3 c1 c2 c3)
                (rev inner)) as [k Hk].
    fold outer in Hk. apply (f_equal (@rev _)) in Hk.
    rewrite rev_involutive, rev_app_distr, Hrev in Hk.
    by apply (strip_ws_head ws2 ws3 (String.list_ascii_of_string s) c
                (r ++ rev k)%list).
  - apply (f_equal (@rev _)) in Hrev. rewrite rev_involutive in Hrev.
    destruct (rev_cons_last c r) as [t Ht]. rewrite Ht in Hrev.
    by apply (strip_ws_head _ _ _ _ _ Hrev).
Qed.

(** X13.  Whatever a non-empty ALLOWED_ORIGINS holds, no origin read from
    it begins or ends with a space, a tab or a line break, and none contains
    a comma. *)
Theorem allowed_origin_is_trimmed (env : gmap string string) v o :
  env !! "ALLOWED_ORIGINS" = Some v → v ≠ "" →
  o ∈ (getAllowedOrigins env).1 →
  (∀ c r, String.list_ascii_of_string o = c :: r →
          Ascii.is_space c = false ∧ Ascii.is_space (List.last r c) = false) ∧
  comma ∉ String.list_ascii_of_string o.
Proof.
  intros Hv Hne Ho.
  assert (Hres : (getAllowedOrigins env).1 = map trim (split v)).
  { unfold getAllowedOrigins, env_truthy. rewrite Hv. by destruct v. }
  rewrite Hres in Ho. apply list_elem_of_fmap in Ho as (seg & -> & Hseg).
  split.
  - intros c r. apply trim_ends.
  - intros Hin. apply trim_bytes_subset in Hin.
    by apply (split_comma_no_comma v seg).
Qed.

Lemma allowed_origin_is_trimmed_witness :
  "https://www.avalondance.co.za" ∈ (getAllowedOrigins production_env).1 ∧
  comma ∉ String.list_ascii_of_string "https://www.avalondance.co.za".
Proof.
  assert (Hne : "https://eodsa.vercel.app, https://www.avalondance.co.za" ≠ "")
    by discriminate.
  assert (Hin : "https://www.avalondance.co.za"
                  ∈ (getAllowedOrigins production_env).1).
  { apply list_elem_of_further, list_elem_of_here. }
  split; [exact Hin |].
  exact (proj2 (allowed_origin_is_trimmed production_env _ _ eq_refl Hne Hin)).
Defined.

Lemma visible_not_ws c :
  visible c = true →
  Ascii.is_space c = false ∧ (Ascii.N_of_ascii c <? 0x80)%N = true.
Proof. by destruct c as [[] [] [] [] [] [] [] []]. Qed.

Lemma low_byte_not c n :
  (Ascii.N_of_ascii c <? 0x80)%N = true → (0x80 ≤ n)%N → is_byte c n = false.
Proof.
  intros Hc Hn. unfold is_byte. apply N.eqb_neq. apply N.ltb_lt in Hc. lia.
Qed.

Lemma low_byte_opens_nothing c :
  (Ascii.N_of_ascii c <? 0x80)%N = true →
  (∀ x, ws2 c x = false) ∧ (∀ x y, ws3 c x y = false).
Proof.
  intros Hc. split; intros; unfold ws2, ws3;
    rewrite ?(low_byte_not c _ Hc) by lia; reflexivity.
Qed.

Lemma low_byte_closes_nothing c :
  (Ascii.N_of_ascii c <? 0x80)%N = true →
  (∀ x, ws2 x c = false) ∧ (∀ x y, ws3 x y c = false).
Proof.
  intros Hc. split; intros; unfold ws2, ws3;
    rewrite ?(low_byte_not c _ Hc) by lia.
  - apply andb_false_r.
  - assert (Hlo : (0x80 <=? Ascii.N_of_ascii c)%N = false).
    { apply N.leb_gt. by apply N.ltb_lt in Hc. }
    rewrite Hlo. cbn [andb orb]. by rewrite !andb_false_r.
Qed.

Lemma strip_ws_fixed two three c r :
  Ascii.is_space c = false →
  (∀ x, two c x = false) → (∀ x y, three c x y = false) →
  strip_ws two three (c :: r) = c :: r.
Proof.
  intros Hs H2 H3. simpl. rewrite Hs.
  destruct r as [| c2 r2]; [done |]. rewrite H2.
  destruct r2 as [| c3 r3]; [done |]. by rewrite H3.
Qed.

Lemma trim_visible_ends s : visible_ends s = true → trim s = s.
Proof.
  unfold visible_ends. intros Hv.
  rewrite <- (String.string_of_list_ascii_of_string (trim s)), trim_bytes.
  destruct (String.list_ascii_of_string s) as [| c r] eqn:Hs; [done |].
  apply andb_true_iff in Hv as [Hc Hl].
  apply visible_not_ws in Hc as [Hc1 Hc2].
  apply visible_not_ws in Hl as [Hl1 Hl2].
  destruct (low_byte_opens_nothing c Hc2) as [Ho2 Ho3].
  destruct (low_byte_closes_nothing _ Hl2) as [Hcl2 Hcl3].
  rewrite (strip_ws_fixed ws2 ws3 c r Hc1 Ho2 Ho3).
  destruct (rev_cons_last c r) as [t Ht]. rewrite Ht.
  rewrite strip_ws_fixed by (intros; auto).
  rewrite <- Ht, rev_involutive, <- Hs.
  apply String.string_of_list_ascii_of_string.
Qed.

(** X14.  Origins written plainly are taken as written: when every
    comma-separated segment of ALLOWED_ORIGINS begins and ends with a
    visible ASCII character, the allowed origins are exactly those
    segments, in order and unchanged. *)
Theorem plain_origins_kept_verbatim (env : gmap string string) v :
  env !! "ALLOWED_ORIGINS" = Some v →
  Forall (λ seg, visible_ends seg = true) (split v) →
  (getAllowedOrigins env).1 = split v.
Proof.
  intros Hv Hall.
  assert (Hne : v ≠ "").
  { intros ->. apply Forall_cons in Hall as [Hseg _]. discriminate Hseg. }
  unfold getAllowedOrigins, env_truthy. rewrite Hv.
  destruct v as [| c v]; [done |]. cbn [fst].
  induction Hall as [| seg segs Hseg _ IH]; [done |].
  simpl. by rewrite (trim_visible_ends seg Hseg), IH.
Qed.

Lemma plain_origins_kept_verbatim_witness :
  (getAllowedOrigins plain_env).1
  = ["https://a.example"; "https://b.example"].
Proof.
  rewrite (plain_origins_kept_verbatim plain_env
             "https://a.example,https://b.example" eq_refl).
  - reflexivity.
  - repeat constructor.
Defined.

(** * The HTTP responder *)

(** X15.  The responder never reports a failure: every request, whatever
    its path and method, is answered with status 200.  The JSON health
    report is given exactly for GET on the path /health (a query string or
    a trailing slash already gets the plain banner); it shows the engine's
    client count, which no relay event can change. *)
Theorem health_check_behaviour st now req :
  statusCode (on_request st now req) = 200%Z ∧
  (url req = "/health" ∧ method req = "GET" →
   on_request st now req
   = Response 200 [("Content-Type", "application/json")]
       (Json (VObj [("status", VStr "healthy");
                    ("timestamp", VStr now);
                    ("connectedClients", VNum (clientsCount st))]))) ∧
  (¬ (url req = "/health" ∧ method req = "GET") →
   on_request st now req
   = Response 200 [("Content-Type", "text/plain")]
       (Text "EODSA WebSocket Server - Running")) ∧
  (∀ socket name arg,
     on_request (on_message socket name arg st).2 now req
     = on_request st now req).
Proof.
  unfold on_request.
  destruct (String.eqb_spec (url req) "/health") as [Hu | Hu];
    destruct (String.eqb_spec (method req) "GET") as [Hm | Hm]; simpl.
  all: split; [reflexivity |].
  all: split; [intros [? ?]; done |].
  all: split; [intros Hnot; try done; by destruct Hnot |].
  all: intros socket name arg;
       destruct (on_message_shape socket name arg st) as (Hn & _);
       by rewrite ?Hn.
Qed.

Lemma health_check_behaviour_witness :
  on_request two_clients "2024-01-01T12:00:00.000Z" (Request "/health?full=1" "GET")
  = Response 200 [("Content-Type", "text/plain")]
      (Text "EODSA WebSocket Server - Running").
Proof.
  destruct (health_check_behaviour two_clients "2024-01-01T12:00:00.000Z"
              (Request "/health?full=1" "GET")) as (_ & _ & Hplain & _).
  apply Hplain. intros [Hu _]. discriminate Hu.
Defined.

(** * Messages in sequence *)

(** X16.  Two dispatched messages handled one after the other are emitted
    in that order: the outbox holds the first row's emissions, each listed
    room once and in the listed order, then the second row's; neither run
    disturbs the other's destinations or the socket table. *)
Theorem dispatches_emit_in_order
    socket1 socket2 name1 roles1 d1 name2 roles2 d2 st :
  (name1, roles1) ∈ spec_dispatch_table →
  (name2, roles2) ∈ spec_dispatch_table →
  dispatchable name1 d1 = true →
  dispatchable name2 d2 = true →
  ∃ e1 e2,
    ToString (field d1 "eventId") = Ok e1 ∧
    ToString (field d2 "eventId") = Ok e2 ∧
    sockets (on_message socket2 name2 d2 (on_message socket1 name1 d1 st).2).2
    = sockets st ∧
    emitted st (on_message socket2 name2 d2 (on_message socket1 name1 d1 st).2).2
    = (map (λ r, Emission (room_name r e1) (spec_out_event name1)
                   (spec_out_payload name1 d1 (field d1 "eventId"))) roles1
       ++ map (λ r, Emission (room_name r e2) (spec_out_event name2)
                      (spec_out_payload name2 d2 (field d2 "eventId"))) roles2)%list.
Proof.
  intros Hin1 Hin2 Hd1 Hd2.
  destruct (dispatch_run socket1 name1 roles1 d1 st Hin1 Hd1)
    as (e1 & line1 & He1 & ->).
  cbn [snd].
  match goal with
  | |- context [on_message socket2 name2 d2 ?st1] =>
      destruct (dispatch_run socket2 name2 roles2 d2 st1 Hin2 Hd2)
        as (e2 & line2 & He2 & ->)
  end.
  exists e1, e2. cbn [snd sockets outbox].
  split; [exact He1 |]. split; [exact He2 |]. split; [reflexivity |].
  rewrite <- app_assoc. apply emitted_app.
Qed.

Lemma dispatches_emit_in_order_witness :
  map em_event
    (emitted two_clients
       (on_message "s2" "test:notification" test_payload
          (on_message "s1" "presence:update" presence_payload two_clients).2).2)
  = ["presence:update"; "presence:update"; "presence:update";
     "presence:update"; "presence:update"; "notification"].
Proof.
  destruct (dispatches_emit_in_order "s1" "s2"
              "presence:update"
              ["event"; "backstage"; "announcer"; "registration"; "media"]
              presence_payload
              "test:notification" ["event"] test_payload two_clients)
    as (e1 & e2 & _ & _ & _ & ->).
  - do 6 apply list_elem_of_further. apply list_elem_of_here.
  - do 8 apply list_elem_of_further. apply list_elem_of_here.
  - reflexivity.
  - reflexivity.
  - reflexivity.
Defined.
